(** * WboitPass: weighted, blended order-independent transparency pass

    A shallow embedding of [src/WboitPass.js] (class [WboitPass]) and the
    properties of its per-frame algorithm.

    JavaScript numbers are IEEE-754 binary64 values and are modelled by Rocq's
    primitive floats.  Materials and scene objects are shared mutable objects:
    they live in a heap indexed by reference, and the snapshot caches
    ([Map]s keyed by object identity) are keyed by those references. *)

From Stdlib Require Import PrimFloat SpecFloat FloatOps ZArith.
From stdpp Require Import gmap strings list functions pretty.

Set Default Proof Using "Type".

(** ** JavaScript values *)

(** The render targets the pass can bind.  [Screen] is [null] (the default
    framebuffer), [External] a target owned by the caller (the composer's
    write buffer, or whatever was bound before the pass ran); the other three
    are created by the pass itself with [new WebGLRenderTarget]. *)
Inductive Target :=
| Screen
| External (ref : nat)
| BaseTarget
| AccumulationTarget
| ProbeTarget (i : nat).

Inductive JsVal :=
| JsUndefined
| JsNull
| JsBool (b : bool)
| JsNum (x : float)
| JsStr (s : string)
| JsColor (r g b : float)      (* an instance of THREE.Color *)
| JsTexture (target : Target)  (* the [texture] of a render target *)
| JsObj (ref : nat).           (* any other object *)

(** ToBoolean: [undefined], [null], [false], [0], [-0], [NaN] and the empty
    string are falsy, everything else (every object included) is truthy. *)
Definition truthy (v : JsVal) : bool :=
  match v with
  | JsUndefined | JsNull => false
  | JsBool b => b
  | JsNum x => negb (is_zero x || is_nan x)
  | JsStr s => match s with EmptyString => false | _ => true end
  | JsColor _ _ _ | JsTexture _ | JsObj _ => true
  end.

(** [a && b] yields [a] when [a] is falsy and [b] otherwise. *)
Definition js_and (a b : JsVal) : JsVal := if truthy a then b else a.

(** [v === true] and [v === undefined]. *)
Definition is_true (v : JsVal) : bool :=
  match v with JsBool true => true | _ => false end.

Definition is_undefined (v : JsVal) : bool :=
  match v with JsUndefined => true | _ => false end.

(** [v === s] for a string constant [s]. *)
Definition is_string (s : string) (v : JsVal) : bool :=
  match v with JsStr s' => String.eqb s' s | _ => false end.

(** ** Constants imported from three.js ([three/src/constants.js]) *)

Definition NormalBlending : JsVal := JsNum 1.
Definition CustomBlending : JsVal := JsNum 5.
Definition AddEquation : JsVal := JsNum 100.
Definition ZeroFactor : JsVal := JsNum 200.
Definition OneFactor : JsVal := JsNum 201.
Definition SrcAlphaFactor : JsVal := JsNum 204.
Definition OneMinusSrcAlphaFactor : JsVal := JsNum 205.
Definition UnsignedByteType : JsVal := JsNum 1009.
Definition FloatType : JsVal := JsNum 1015.
Definition HalfFloatType : JsVal := JsNum 1016.
Definition SRGBColorSpace : string := "srgb".

(** [_clearColorZero] and [_clearColorOne]. *)
Definition _clearColorZero : JsVal := JsColor 0 0 0.
Definition _clearColorOne : JsVal := JsColor 1 1 1.

(** ** Materials, objects and the heap *)

(** The fields of a material the pass reads or writes.  [renderStage] is
    [JsUndefined] on a material without that field; [uniforms] is [None] on a
    material without a uniform table, and the table maps a uniform's name to
    its [value]. *)
Record Material := mkMaterial {
  transparent : JsVal;
  wboitEnabled : JsVal;
  blending : JsVal;
  blendEquation : JsVal;
  blendSrc : JsVal;
  blendDst : JsVal;
  depthTest : JsVal;
  depthWrite : JsVal;
  renderStage : JsVal;
  uniforms : option (gmap string JsVal)
}.

Definition set_blending (v : JsVal) (m : Material) : Material :=
  mkMaterial (transparent m) (wboitEnabled m) v (blendEquation m) (blendSrc m)
    (blendDst m) (depthTest m) (depthWrite m) (renderStage m) (uniforms m).
Definition set_blendEquation (v : JsVal) (m : Material) : Material :=
  mkMaterial (transparent m) (wboitEnabled m) (blending m) v (blendSrc m)
    (blendDst m) (depthTest m) (depthWrite m) (renderStage m) (uniforms m).
Definition set_blendSrc (v : JsVal) (m : Material) : Material :=
  mkMaterial (transparent m) (wboitEnabled m) (blending m) (blendEquation m) v
    (blendDst m) (depthTest m) (depthWrite m) (renderStage m) (uniforms m).
Definition set_blendDst (v : JsVal) (m : Material) : Material :=
  mkMaterial (transparent m) (wboitEnabled m) (blending m) (blendEquation m)
    (blendSrc m) v (depthTest m) (depthWrite m) (renderStage m) (uniforms m).
Definition set_depthTest (v : JsVal) (m : Material) : Material :=
  mkMaterial (transparent m) (wboitEnabled m) (blending m) (blendEquation m)
    (blendSrc m) (blendDst m) v (depthWrite m) (renderStage m) (uniforms m).
Definition set_depthWrite (v : JsVal) (m : Material) : Material :=
  mkMaterial (transparent m) (wboitEnabled m) (blending m) (blendEquation m)
    (blendSrc m) (blendDst m) (depthTest m) v (renderStage m) (uniforms m).
Definition set_renderStage (v : JsVal) (m : Material) : Material :=
  mkMaterial (transparent m) (wboitEnabled m) (blending m) (blendEquation m)
    (blendSrc m) (blendDst m) (depthTest m) (depthWrite m) v (uniforms m).
Definition set_uniforms (u : option (gmap string JsVal)) (m : Material) : Material :=
  mkMaterial (transparent m) (wboitEnabled m) (blending m) (blendEquation m)
    (blendSrc m) (blendDst m) (depthTest m) (depthWrite m) (renderStage m) u.
Definition set_transparent (v : JsVal) (m : Material) : Material :=
  mkMaterial v (wboitEnabled m) (blending m) (blendEquation m)
    (blendSrc m) (blendDst m) (depthTest m) (depthWrite m) (renderStage m)
    (uniforms m).

(** [object.material]: absent (falsy), one material, or an array of
    materials.  An array, even an empty one, is truthy. *)
Inductive MaterialSlot :=
| NoMaterial
| SingleMaterial (m : nat)
| MaterialArray (ms : list nat).

Definition has_material (s : MaterialSlot) : bool :=
  match s with NoMaterial => false | _ => true end.

(** [Array.isArray(x) ? x : [x]] on a slot that holds a material. *)
Definition as_array (s : MaterialSlot) : list nat :=
  match s with
  | NoMaterial => []
  | SingleMaterial m => [m]
  | MaterialArray ms => ms
  end.

Record Object3D := mkObject3D {
  material : MaterialSlot;
  visible : JsVal;
  isScene : JsVal;
  overrideMaterial : JsVal
}.

Definition set_visible (v : JsVal) (o : Object3D) : Object3D :=
  mkObject3D (material o) v (isScene o) (overrideMaterial o).
Definition set_overrideMaterial (v : JsVal) (o : Object3D) : Object3D :=
  mkObject3D (material o) (visible o) (isScene o) v.

(** The heap: every object and material reference resolves. *)
Record Heap := mkHeap {
  objs : nat → Object3D;
  mats : nat → Material
}.

Definition upd_mat (m : nat) (f : Material → Material) (h : Heap) : Heap :=
  mkHeap (objs h) (<[m := f (mats h m)]> (mats h)).
Definition upd_obj (o : nat) (f : Object3D → Object3D) (h : Heap) : Heap :=
  mkHeap (<[o := f (objs h o)]> (objs h)) (mats h).

#[local] Set Warnings "-register-all".

(** The scene graph: an object and its [children].  The pass never changes
    the shape of the graph. *)
Inductive Object3DTree :=
| Node (object : nat) (children : list Object3DTree).

Definition root (t : Object3DTree) : nat :=
  match t with Node o _ => o end.

(** [Object3D.traverse(callback)]: the callback on the object itself, then on
    each child's subtree, in order. *)
Fixpoint traverse {S : Type} (callback : nat → S → S) (t : Object3DTree) (s : S) : S :=
  match t with
  | Node o children =>
      fold_left (fun s c => traverse callback c s) children (callback o s)
  end.

(** The objects of a graph in the order [traverse] visits them. *)
Fixpoint preorder (t : Object3DTree) : list nat :=
  match t with
  | Node o children => o :: flat_map preorder children
  end.

(** ** The snapshot caches *)

(** [_visibilityCache] is iterated by [resetVisible], so it keeps the
    insertion order of a JavaScript [Map]: [set] on a present key replaces the
    value in place, on an absent key appends. *)
Fixpoint Map_set (k : nat) (v : JsVal) (m : list (nat * JsVal)) : list (nat * JsVal) :=
  match m with
  | [] => [(k, v)]
  | (k', v') :: rest =>
      if decide (k = k') then (k, v) :: rest else (k', v') :: Map_set k v rest
  end.

(** [Map.get] of the material-keyed caches: [undefined] on an absent key. *)
Definition Map_get (k : nat) (m : gmap nat JsVal) : JsVal :=
  default JsUndefined (m !! k).

Record Caches := mkCaches {
  _visibilityCache : list (nat * JsVal);
  _blendingCache : gmap nat JsVal;
  _blendEquationCache : gmap nat JsVal;
  _blendSrcCache : gmap nat JsVal;
  _blendDstCache : gmap nat JsVal;
  _depthTestCache : gmap nat JsVal;
  _depthWriteCache : gmap nat JsVal
}.

Definition empty_caches : Caches := mkCaches [] ∅ ∅ ∅ ∅ ∅ ∅.

(** ** The state of one [render] call *)

(** The heap, the caches (aliases of the pass's [Map]s) and the three local
    arrays the closures of [render] share. *)
Record Frame := mkFrame {
  heap : Heap;
  caches : Caches;
  opaqueMeshes : list nat;
  transparentMeshes : list nat;
  wboitMeshes : list nat
}.

Definition with_heap (h : Heap) (f : Frame) : Frame :=
  mkFrame h (caches f) (opaqueMeshes f) (transparentMeshes f) (wboitMeshes f).
Definition with_caches (c : Caches) (f : Frame) : Frame :=
  mkFrame (heap f) c (opaqueMeshes f) (transparentMeshes f) (wboitMeshes f).

(** ** gatherMeshes *)

(** The first loop of the visitor: folds the two flags over the materials and
    snapshots each material's depth fields. *)
Fixpoint gather_flags (h : Heap) (materials : list nat)
    (isTransparent isWboitCapable : JsVal) (c : Caches) : JsVal * JsVal * Caches :=
  match materials with
  | [] => (isTransparent, isWboitCapable, c)
  | mi :: rest =>
      let isTransparent := js_and isTransparent (transparent (mats h mi)) in
      let isWboitCapable :=
        js_and (js_and isWboitCapable isTransparent) (wboitEnabled (mats h mi)) in
      let c :=
        mkCaches (_visibilityCache c) (_blendingCache c) (_blendEquationCache c)
          (_blendSrcCache c) (_blendDstCache c)
          (<[mi := depthTest (mats h mi)]> (_depthTestCache c))
          (<[mi := depthWrite (mats h mi)]> (_depthWriteCache c)) in
      gather_flags h rest isTransparent isWboitCapable c
  end.

(** The loops of the opaque and transparent branches. *)
Fixpoint force_depth (test write : JsVal) (materials : list nat) (h : Heap) : Heap :=
  match materials with
  | [] => h
  | mi :: rest =>
      force_depth test write rest
        (upd_mat mi (set_depthWrite write) (upd_mat mi (set_depthTest test) h))
  end.

(** The loop of the WBOIT branch: snapshots the four blend fields. *)
Fixpoint snapshot_blend (h : Heap) (materials : list nat) (c : Caches) : Caches :=
  match materials with
  | [] => c
  | mi :: rest =>
      snapshot_blend h rest
        (mkCaches (_visibilityCache c)
           (<[mi := blending (mats h mi)]> (_blendingCache c))
           (<[mi := blendEquation (mats h mi)]> (_blendEquationCache c))
           (<[mi := blendSrc (mats h mi)]> (_blendSrcCache c))
           (<[mi := blendDst (mats h mi)]> (_blendDstCache c))
           (_depthTestCache c) (_depthWriteCache c))
  end.

Definition cache_visible (o : nat) (v : JsVal) (c : Caches) : Caches :=
  mkCaches (Map_set o v (_visibilityCache c)) (_blendingCache c)
    (_blendEquationCache c) (_blendSrcCache c) (_blendDstCache c)
    (_depthTestCache c) (_depthWriteCache c).

(** The visitor passed to [scene.traverse]. *)
Definition gather_visit (o : nat) (f : Frame) : Frame :=
  let object := objs (heap f) o in
  if negb (has_material (material object)) then f
  else if negb (truthy (visible object)) then f
  else
    let materials := as_array (material object) in
    let '(isTransparent, isWboitCapable, c) :=
      gather_flags (heap f) materials (JsBool true) (JsBool true) (caches f) in
    let f :=
      if negb (truthy isWboitCapable) then
        if negb (truthy isTransparent) then
          mkFrame (force_depth (JsBool true) (JsBool true) materials (heap f)) c
            (opaqueMeshes f ++ [o]) (transparentMeshes f) (wboitMeshes f)
        else
          mkFrame (force_depth (JsBool true) (JsBool false) materials (heap f)) c
            (opaqueMeshes f) (transparentMeshes f ++ [o]) (wboitMeshes f)
      else
        mkFrame (heap f) (snapshot_blend (heap f) materials c)
          (opaqueMeshes f) (transparentMeshes f) (wboitMeshes f ++ [o]) in
    with_caches (cache_visible o (visible (objs (heap f) o)) (caches f)) f.

Definition gatherMeshes (scene : Object3DTree) (f : Frame) : Frame :=
  traverse gather_visit scene f.

(** ** changeVisible and resetVisible *)

Definition set_all_visible (v : bool) (meshes : list nat) (h : Heap) : Heap :=
  fold_left (fun h mesh => upd_obj mesh (set_visible (JsBool v)) h) meshes h.

Definition changeVisible (opaqueVisible transparentVisible wboitVisible : bool)
    (f : Frame) : Frame :=
  let h := set_all_visible opaqueVisible (opaqueMeshes f) (heap f) in
  let h := set_all_visible transparentVisible (transparentMeshes f) h in
  let h := set_all_visible wboitVisible (wboitMeshes f) h in
  with_heap h f.

(** The inner loop of [resetVisible], as the source has it: [depthWrite] is
    assigned from [testCache] and [depthTest] from [writeCache]. *)
Fixpoint reset_depth (c : Caches) (materials : list nat) (h : Heap) : Heap :=
  match materials with
  | [] => h
  | mi :: rest =>
      let h := upd_mat mi (set_depthWrite (Map_get mi (_depthTestCache c))) h in
      let h := upd_mat mi (set_depthTest (Map_get mi (_depthWriteCache c))) h in
      reset_depth c rest h
  end.

Definition reset_entry (c : Caches) (h : Heap) (entry : nat * JsVal) : Heap :=
  let '(key, value) := entry in
  let h := upd_obj key (set_visible value) h in
  if has_material (material (objs h key))
  then reset_depth c (as_array (material (objs h key))) h
  else h.

Definition resetVisible (f : Frame) : Frame :=
  with_heap (fold_left (reset_entry (caches f)) (_visibilityCache (caches f)) (heap f)) f.

(** ** Exceptions *)

Inductive JsError := ReferenceError | TypeError.

Inductive Completion (A : Type) :=
| Returns (a : A)
| Throws (e : JsError).
Arguments Returns {A} a.
Arguments Throws {A} e.

#[global] Instance Completion_ret : MRet Completion := @Returns.
#[global] Instance Completion_bind : MBind Completion :=
  fun A B k c => match c with Returns a => k a | Throws e => Throws e end.

(** ** prepareWboitBlending *)

(** [WboitStages], imported from [materials/MeshWboitMaterial.js]: three
    numbers, whose values the pass does not depend on beyond telling them
    apart (and the misspelt key [Acummulation] is the source's). *)
Record WboitStagesT := mkWboitStages {
  Normal : float;
  Acummulation : float;
  Revealage : float
}.

Section Stages.

Context (WboitStages : WboitStagesT).
(** [Number.prototype.toFixed] with one fraction digit. *)
Context (toFixed1 : float → string).

(** How a material is told the stage: the field when it is truthy, else the
    uniform when the material has a uniform table with that entry. *)
Definition send_stage (stage : float) (m : Material) : Material :=
  if truthy (renderStage m) then set_renderStage (JsNum stage) m
  else
    match uniforms m with
    | Some u =>
        if decide (is_Some (u !! "renderStage"))
        then set_uniforms (Some (<["renderStage" := JsStr (toFixed1 stage)]> u)) m
        else m
    | None => m
    end.

(** The [switch (stage)]: cases are compared with [===] in source order. *)
Definition blend_for_stage (stage : float) (c : Caches) (mi : nat) (m : Material) : Material :=
  if (stage =? Acummulation WboitStages)%float then
    set_depthTest (JsBool true) (set_depthWrite (JsBool false)
      (set_blendDst OneFactor (set_blendSrc OneFactor
        (set_blendEquation AddEquation (set_blending CustomBlending m)))))
  else if (stage =? Revealage WboitStages)%float then
    set_depthTest (JsBool true) (set_depthWrite (JsBool false)
      (set_blendDst OneMinusSrcAlphaFactor (set_blendSrc ZeroFactor
        (set_blendEquation AddEquation (set_blending CustomBlending m)))))
  else
    set_blendDst (Map_get mi (_blendDstCache c))
      (set_blendSrc (Map_get mi (_blendSrcCache c))
        (set_blendEquation (Map_get mi (_blendEquationCache c))
          (set_blending (Map_get mi (_blendingCache c)) m))).

(** The loop over one mesh's materials. *)
Fixpoint prepare_materials (stage : float) (c : Caches) (materials : list nat)
    (h : Heap) : Heap :=
  match materials with
  | [] => h
  | mi :: rest =>
      if negb (is_true (wboitEnabled (mats h mi))) || negb (is_true (transparent (mats h mi)))
      then prepare_materials stage c rest h
      else
        prepare_materials stage c rest
          (upd_mat mi (fun m => blend_for_stage stage c mi (send_stage stage m)) h)
  end.

(** One mesh.  There is no guard on [mesh.material] here: on a falsy one the
    array is [[undefined]] and reading its element's field throws. *)
Definition prepare_mesh (stage : float) (c : Caches) (mesh : nat) (h : Heap)
    : Completion Heap :=
  match material (objs h mesh) with
  | NoMaterial => Throws TypeError
  | slot => Returns (prepare_materials stage c (as_array slot) h)
  end.

Fixpoint prepare_meshes (stage : float) (c : Caches) (meshes : list nat) (h : Heap)
    : Completion Heap :=
  match meshes with
  | [] => Returns h
  | mesh :: rest => h ← prepare_mesh stage c mesh h; prepare_meshes stage c rest h
  end.

Definition prepareWboitBlending (stage : float) (f : Frame) : Completion Frame :=
  h ← prepare_meshes stage (caches f) (wboitMeshes f) (heap f);
  Returns (with_heap h f).

End Stages.

(** ** The renderer *)

(** What the pass asks of the three.js [WebGLRenderer], in call order. *)
Inductive SubPass := OpaquePass | TransparentPass | CopyPass | CompositePass | TestPass.

Inductive Call :=
| CallSetRenderTarget (t : Target)
| CallSetClearColor (color alpha : JsVal)
| CallClear
| CallClearColor
| CallRender
| CallShaderPass (p : SubPass) (writeBuffer : Target) (readBuffer : option Target)
| CallReadPixels (i : nat).

(** The WebGL context as the capability probe sees it: for the [i]-th
    candidate, whether [checkFramebufferStatus] reports a complete framebuffer
    and what [readPixels] leaves in the typed array. *)
Record GlContext := mkGl {
  framebufferComplete : nat → bool;
  readPixels : nat → float * float * float * float
}.

Record WebGLRenderer := mkRenderer {
  autoClear : JsVal;
  r_clearColor : JsVal;
  r_clearAlpha : JsVal;
  r_renderTarget : Target;
  outputColorSpace : JsVal;
  r_width : float;
  r_height : float;
  r_pixelRatio : float;
  r_gl : GlContext;
  calls : list Call
}.

Definition set_autoClear (v : JsVal) (r : WebGLRenderer) : WebGLRenderer :=
  mkRenderer v (r_clearColor r) (r_clearAlpha r) (r_renderTarget r)
    (outputColorSpace r) (r_width r) (r_height r) (r_pixelRatio r) (r_gl r) (calls r).

Definition log (c : Call) (r : WebGLRenderer) : WebGLRenderer :=
  mkRenderer (autoClear r) (r_clearColor r) (r_clearAlpha r) (r_renderTarget r)
    (outputColorSpace r) (r_width r) (r_height r) (r_pixelRatio r) (r_gl r)
    (calls r ++ [c]).

Definition setRenderTarget (t : Target) (r : WebGLRenderer) : WebGLRenderer :=
  log (CallSetRenderTarget t)
    (mkRenderer (autoClear r) (r_clearColor r) (r_clearAlpha r) t
       (outputColorSpace r) (r_width r) (r_height r) (r_pixelRatio r) (r_gl r) (calls r)).

(** [Color.set]: copies a colour, takes a number as a hex triplet and a
    string as a CSS style, and ignores anything else. *)
Definition Color_set (value current : JsVal) : JsVal :=
  match value with
  | JsColor _ _ _ | JsNum _ | JsStr _ => value
  | _ => current
  end.

(** [setClearColor(color, alpha = 1)]. *)
Definition setClearColor (color alpha : JsVal) (r : WebGLRenderer) : WebGLRenderer :=
  log (CallSetClearColor color alpha)
    (mkRenderer (autoClear r) (Color_set color (r_clearColor r))
       (if is_undefined alpha then JsNum 1 else alpha) (r_renderTarget r)
       (outputColorSpace r) (r_width r) (r_height r) (r_pixelRatio r) (r_gl r) (calls r)).

Definition renderer_clear : WebGLRenderer → WebGLRenderer := log CallClear.
Definition renderer_clearColor : WebGLRenderer → WebGLRenderer := log CallClearColor.
Definition renderer_render : WebGLRenderer → WebGLRenderer := log CallRender.

(** [ShaderPass.render(renderer, writeBuffer, readBuffer)] of three.js: binds
    the write buffer and draws a full-screen quad with the pass's material. *)
Definition ShaderPass_render (p : SubPass) (writeBuffer : Target)
    (readBuffer : option Target) (r : WebGLRenderer) : WebGLRenderer :=
  log (CallShaderPass p writeBuffer readBuffer)
    (mkRenderer (autoClear r) (r_clearColor r) (r_clearAlpha r) writeBuffer
       (outputColorSpace r) (r_width r) (r_height r) (r_pixelRatio r) (r_gl r) (calls r)).

(** ** The pass object *)

Record RenderTarget := mkRenderTarget {
  rt_width : float;
  rt_height : float;
  rt_type : JsVal;
  rt_depthBuffer : bool
}.

(** [WebGLRenderTarget.setSize]. *)
Definition RenderTarget_setSize (width height : float) (t : RenderTarget) : RenderTarget :=
  mkRenderTarget width height (rt_type t) (rt_depthBuffer t).

(** [this.scene]: an object of the scene graph with its subtree, or any other
    value ([null], [undefined], a number, an object that is no [Object3D]),
    none of which has an [isScene] property. *)
Inductive SceneArg :=
| SceneOther (v : JsVal)
| SceneObject (t : Object3DTree).

Record WboitPass := mkWboitPass {
  scene : SceneArg;
  camera : JsVal;
  clearColor : JsVal;
  clearAlpha : JsVal;
  clear : bool;
  clearDepth : bool;
  needsSwap : bool;
  _oldClearColor : JsVal;
  pass_caches : Caches;
  opaquePass : Material;
  transparentPass : Material;
  copyPass : Material;
  compositePass : Material;
  baseTarget : RenderTarget;
  accumulationTarget : RenderTarget
}.

(** [pass.uniforms[name].value = v] on a sub-pass whose shader declares the
    uniform. *)
Definition set_uniform (name : string) (v : JsVal) (m : Material) : Material :=
  set_uniforms (insert name v <$> uniforms m) m.

(** [!scene || !scene.isScene] is false. *)
Definition scene_valid (s : SceneArg) (h : Heap) : option Object3DTree :=
  match s with
  | SceneOther _ => None
  | SceneObject t => if truthy (isScene (objs h (root t))) then Some t else None
  end.

Definition set__oldClearColor (v : JsVal) (p : WboitPass) : WboitPass :=
  mkWboitPass (scene p) (camera p) (clearColor p) (clearAlpha p) (clear p)
    (clearDepth p) (needsSwap p) v (pass_caches p) (opaquePass p)
    (transparentPass p) (copyPass p) (compositePass p) (baseTarget p)
    (accumulationTarget p).
Definition set_pass_caches (c : Caches) (p : WboitPass) : WboitPass :=
  mkWboitPass (scene p) (camera p) (clearColor p) (clearAlpha p) (clear p)
    (clearDepth p) (needsSwap p) (_oldClearColor p) c (opaquePass p)
    (transparentPass p) (copyPass p) (compositePass p) (baseTarget p)
    (accumulationTarget p).
Definition set_opaquePass (m : Material) (p : WboitPass) : WboitPass :=
  mkWboitPass (scene p) (camera p) (clearColor p) (clearAlpha p) (clear p)
    (clearDepth p) (needsSwap p) (_oldClearColor p) (pass_caches p) m
    (transparentPass p) (copyPass p) (compositePass p) (baseTarget p)
    (accumulationTarget p).
Definition set_transparentPass (m : Material) (p : WboitPass) : WboitPass :=
  mkWboitPass (scene p) (camera p) (clearColor p) (clearAlpha p) (clear p)
    (clearDepth p) (needsSwap p) (_oldClearColor p) (pass_caches p) (opaquePass p)
    m (copyPass p) (compositePass p) (baseTarget p) (accumulationTarget p).
Definition set_compositePass (m : Material) (p : WboitPass) : WboitPass :=
  mkWboitPass (scene p) (camera p) (clearColor p) (clearAlpha p) (clear p)
    (clearDepth p) (needsSwap p) (_oldClearColor p) (pass_caches p) (opaquePass p)
    (transparentPass p) (copyPass p) m (baseTarget p) (accumulationTarget p).

(** ** setSize *)

Definition setSize (width height : float) (p : WboitPass) : WboitPass :=
  mkWboitPass (scene p) (camera p) (clearColor p) (clearAlpha p) (clear p)
    (clearDepth p) (needsSwap p) (_oldClearColor p) (pass_caches p) (opaquePass p)
    (transparentPass p) (copyPass p) (compositePass p)
    (RenderTarget_setSize width height (baseTarget p))
    (RenderTarget_setSize width height (accumulationTarget p)).

(** ** render *)

Section Render.

Context (WboitStages : WboitStagesT).
Context (toFixed1 : float → string).

(** [renderer.outputColorSpace === SRGBColorSpace ? 1 : 0]. *)
Definition gamma (renderer : WebGLRenderer) : JsVal :=
  if is_string SRGBColorSpace (outputColorSpace renderer) then JsNum 1 else JsNum 0.

(** "Clear Write Buffer". *)
Definition clear_write_buffer (pass : WboitPass) (writeBuffer : Target)
    (renderer : WebGLRenderer) : WebGLRenderer :=
  if truthy (clearColor pass) then
    let renderer := setRenderTarget writeBuffer renderer in
    let renderer := setClearColor (clearColor pass) (clearAlpha pass) renderer in
    renderer_clearColor renderer
  else renderer.

Definition render (pass : WboitPass) (renderer : WebGLRenderer) (writeBuffer : Target)
    (h : Heap) : Completion (WboitPass * WebGLRenderer * Heap) :=
  match scene_valid (scene pass) h with
  | None => Returns (pass, renderer, h)
  | Some scene =>
      let f := mkFrame h (pass_caches pass) [] [] [] in
      (* Save Current State *)
      let oldAutoClear := autoClear renderer in
      let oldClearAlpha := r_clearAlpha renderer in
      let oldRenderTarget := r_renderTarget renderer in
      let oldOverrideMaterial := overrideMaterial (objs (heap f) (root scene)) in
      let renderer := set_autoClear (JsBool false) renderer in
      let pass := set__oldClearColor (r_clearColor renderer) pass in
      let f := with_heap (upd_obj (root scene) (set_overrideMaterial JsNull) (heap f)) f in
      (* Gather Opaque / Transparent Meshes *)
      let f := gatherMeshes scene f in
      (* Clear Write Buffer *)
      let renderer := clear_write_buffer pass writeBuffer renderer in
      (* Render Opaque Objects *)
      let f := changeVisible true false false f in
      let renderer := setRenderTarget BaseTarget renderer in
      let renderer := setClearColor _clearColorZero (JsNum 0) renderer in
      let renderer := renderer_clear renderer in
      let renderer := renderer_render renderer in
      (* Gamma Correction *)
      let pass := set_opaquePass (set_uniform "uGamma" (gamma renderer) (opaquePass pass)) pass in
      let pass := set_transparentPass (set_uniform "uGamma" (gamma renderer) (transparentPass pass)) pass in
      let pass := set_compositePass (set_uniform "uGamma" (gamma renderer) (compositePass pass)) pass in
      (* Copy 'Opaque Render' to write buffer *)
      let renderer := ShaderPass_render OpaquePass writeBuffer (Some BaseTarget) renderer in
      (* Render Transparent Objects *)
      let f := changeVisible false true false f in
      let renderer := setRenderTarget BaseTarget renderer in
      let renderer := renderer_clearColor renderer in
      let renderer := renderer_render renderer in
      (* Copy 'Transparent Render' to write buffer *)
      let renderer := ShaderPass_render TransparentPass writeBuffer (Some BaseTarget) renderer in
      (* Render Wboit Objects, Accumulation Pass *)
      let f := changeVisible false false true f in
      f ← prepareWboitBlending WboitStages toFixed1 (Acummulation WboitStages) f;
      let renderer := setRenderTarget BaseTarget renderer in
      let renderer := renderer_clearColor renderer in
      let renderer := renderer_render renderer in
      let renderer := ShaderPass_render CopyPass AccumulationTarget (Some BaseTarget) renderer in
      (* Render Wboit Objects, Revealage Pass *)
      f ← prepareWboitBlending WboitStages toFixed1 (Revealage WboitStages) f;
      let renderer := setRenderTarget BaseTarget renderer in
      let renderer := setClearColor _clearColorOne (JsNum 1) renderer in
      let renderer := renderer_clearColor renderer in
      let renderer := renderer_render renderer in
      (* Composite Wboit Objects *)
      let renderer := setRenderTarget writeBuffer renderer in
      let pass :=
        set_compositePass
          (set_uniform "tRevealage" (JsTexture BaseTarget)
             (set_uniform "tAccumulation" (JsTexture AccumulationTarget)
                (compositePass pass))) pass in
      let renderer := ShaderPass_render CompositePass writeBuffer None renderer in
      (* Restore Original State *)
      f ← prepareWboitBlending WboitStages toFixed1 (Normal WboitStages) f;
      let f := resetVisible f in
      let renderer := setRenderTarget oldRenderTarget renderer in
      let renderer := setClearColor (_oldClearColor pass) oldClearAlpha renderer in
      let f :=
        with_heap (upd_obj (root scene) (set_overrideMaterial oldOverrideMaterial) (heap f)) f in
      let renderer := set_autoClear oldAutoClear renderer in
      (* Clear Caches *)
      let pass := set_pass_caches empty_caches pass in
      Returns (pass, renderer, heap f)
  end.

(** [render] called [n] times in a row, as a render loop does. *)
Fixpoint render_times (n : nat) (pass : WboitPass) (renderer : WebGLRenderer)
    (writeBuffer : Target) (h : Heap) : Completion (WboitPass * WebGLRenderer * Heap) :=
  match n with
  | 0 => Returns (pass, renderer, h)
  | S n =>
      '(pass, renderer, h) ← render pass renderer writeBuffer h;
      render_times n pass renderer writeBuffer h
  end.

End Render.

(** ** The constructor *)

(** [new ShaderPass(shader)]: a [ShaderMaterial] with three.js's default blend
    and depth state and a copy of the shader's uniforms. *)
Definition new_ShaderPass (shader_uniforms : gmap string JsVal) : Material :=
  mkMaterial (JsBool false) JsUndefined NormalBlending AddEquation SrcAlphaFactor
    OneMinusSrcAlphaFactor (JsBool true) (JsBool true) JsUndefined (Some shader_uniforms).

Definition CopyShader : gmap string JsVal :=
  {[ "tDiffuse" := JsNull; "opacity" := JsNum 1 ]}.

Definition CopyAlphaTestShader : gmap string JsVal :=
  {[ "tDiffuse" := JsNull; "uGamma" := JsNum 0 ]}.

(** Modelled from the spec: the uniforms of [shaders/WboitCompositeShader.js],
    which is not among the sources; the compositor has "two texture inputs",
    the accumulation and the revealage texture, and the gamma toggle of the
    copy shaders. *)
Definition WboitCompositeShader : gmap string JsVal :=
  {[ "tAccumulation" := JsNull; "tRevealage" := JsNull; "uGamma" := JsNum 0 ]}.

(** The sub-passes as the constructor configures them. *)
Definition fixed_blend (transparent_ : option JsVal) (depth : option JsVal)
    (src dst : JsVal) (m : Material) : Material :=
  let m := match depth with
           | Some d => set_depthWrite d (set_depthTest d m)
           | None => m
           end in
  let m := match transparent_ with
           | Some t => set_transparent t m
           | None => m
           end in
  set_blendDst dst (set_blendSrc src
    (set_blendEquation AddEquation (set_blending CustomBlending m))).

Definition new_opaquePass : Material :=
  fixed_blend None (Some (JsBool false)) OneFactor ZeroFactor
    (new_ShaderPass CopyAlphaTestShader).
Definition new_transparentPass : Material :=
  fixed_blend None (Some (JsBool false)) OneFactor OneMinusSrcAlphaFactor
    (new_ShaderPass CopyAlphaTestShader).
Definition new_copyPass : Material :=
  fixed_blend None (Some (JsBool false)) OneFactor ZeroFactor
    (new_ShaderPass CopyShader).
Definition new_compositePass : Material :=
  fixed_blend (Some (JsBool true)) None OneMinusSrcAlphaFactor SrcAlphaFactor
    (new_ShaderPass WboitCompositeShader).

(** *** The capability probe *)

Definition testR : float := 1.
Definition testG : float := 1.
Definition testB : float := 1.
Definition testA : float := 0.

Definition targetTypes : list JsVal := [FloatType; HalfFloatType; UnsignedByteType].
Definition targetDivisor : list float := [1; 15360; 255]%float.

(** [fuzzyEqual(a, b, epsilon = 0.01)]. *)
Definition fuzzyEqual (a b : float) : bool :=
  let epsilon := 0x1.47ae147ae147bp-7%float in   (* the double nearest 0.01 *)
  ((a <? b + epsilon) && (b - epsilon <? a))%float.

(** The test of one candidate, before the last-candidate override. *)
Definition round_trip_ok (gl : GlContext) (i : nat) : bool :=
  let '(r, g, b, a) := readPixels gl i in
  let d := default nan (targetDivisor !! i) in
  let complete := framebufferComplete gl i in
  let complete := complete && fuzzyEqual (r / d) testR in
  let complete := complete && fuzzyEqual (g / d) testG in
  let complete := complete && fuzzyEqual (b / d) testB in
  let complete := complete && fuzzyEqual (a / d) testA in
  complete.

(** The [for] loop from index [i] on, [remaining] being
    [targetTypes[i], targetTypes[i+1], ...]; [break] leaves the loop with the
    candidate assigned. *)
Fixpoint probe_loop (remaining : list JsVal) (i : nat) (targetType : JsVal)
    (renderer : WebGLRenderer) : JsVal * WebGLRenderer :=
  match remaining with
  | [] => (targetType, renderer)
  | candidate :: rest =>
      let renderer := ShaderPass_render TestPass (ProbeTarget i) None renderer in
      let renderer := log (CallReadPixels i) renderer in
      let complete := round_trip_ok (r_gl renderer) i in
      let complete := complete || Nat.eqb i (length targetTypes - 1) in
      if complete then (candidate, renderer)
      else probe_loop rest (S i) targetType renderer
  end.

Definition probe (renderer : WebGLRenderer) : JsVal * WebGLRenderer :=
  probe_loop targetTypes 0 JsUndefined renderer.

(** *** The constructor body *)

(** The [renderer] argument: a renderer, or any other value. *)
Inductive RendererArg :=
| NoRenderer (v : JsVal)
| Renderer (r : WebGLRenderer).

(** How the body of the constructor ends.  [super()] is what initialises
    [this] in a derived class; the body either returns before calling it,
    runs to its end after calling it, or throws. *)
Inductive BodyCompletion :=
| ReturnBeforeSuper (v : JsVal)
| EndOfBody (this : WboitPass)
| ThrowInBody (e : JsError).

Definition constructor_body (renderer : RendererArg) (scene_ : SceneArg)
    (camera_ clearColor_ clearAlpha_ : JsVal)
    : list string * BodyCompletion * RendererArg :=
  match renderer with
  | NoRenderer v =>
      if negb (truthy v) then
        (* return console.error(...): logs, and returns [undefined] *)
        (["WboitPass: Renderer must be supplied!"], ReturnBeforeSuper JsUndefined, renderer)
      else
        (* renderer.getSize is not a function *)
        ([], ThrowInBody TypeError, renderer)
  | Renderer r =>
      let effectiveWidth := (r_width r * r_pixelRatio r)%float in
      let effectiveHeight := (r_height r * r_pixelRatio r)%float in
      let oldTarget := r_renderTarget r in
      let oldClearAlpha := r_clearAlpha r in
      let oldClearColor := r_clearColor r in
      let '(targetType, r) := probe r in
      let r := setRenderTarget oldTarget r in
      let r := setClearColor oldClearColor oldClearAlpha r in
      let this :=
        mkWboitPass scene_ camera_ clearColor_
          (if negb (is_undefined clearAlpha_) then clearAlpha_ else JsNum 0)
          false false false oldClearColor empty_caches
          new_opaquePass new_transparentPass new_copyPass new_compositePass
          (mkRenderTarget effectiveWidth effectiveHeight targetType true)
          (mkRenderTarget effectiveWidth effectiveHeight targetType false) in
      ([], EndOfBody this, Renderer r)
  end.

(** *** [new WboitPass(...)] *)

(** What a [new] expression evaluates to. *)
Inductive Constructed :=
| ThePass (this : WboitPass)
| AnotherObject (v : JsVal).

Definition is_object (v : JsVal) : bool :=
  match v with JsColor _ _ _ | JsTexture _ | JsObj _ => true | _ => false end.

(** [[Construct]] of a derived-class constructor (ECMA-262, 10.2.2): a
    returned object is the result; a returned value that is neither an object
    nor [undefined] is a TypeError; otherwise the result is the [this]
    binding, and reading it while it is uninitialised (no [super()] call was
    made) is a ReferenceError (9.1.1.3.4 GetThisBinding). *)
Definition Construct (body : BodyCompletion) : Completion Constructed :=
  match body with
  | ThrowInBody e => Throws e
  | EndOfBody this => Returns (ThePass this)
  | ReturnBeforeSuper v =>
      if is_object v then Returns (AnotherObject v)
      else if negb (is_undefined v) then Throws TypeError
      else Throws ReferenceError
  end.

Definition new_WboitPass (renderer : RendererArg) (scene_ : SceneArg)
    (camera_ clearColor_ clearAlpha_ : JsVal)
    : list string * Completion Constructed * RendererArg :=
  let '(console, body, renderer) :=
    constructor_body renderer scene_ camera_ clearColor_ clearAlpha_ in
  (console, Construct body, renderer).

(** ** The vocabulary of the properties *)

(** An induction principle for the scene graph that reaches the children. *)
Section Object3DTree_induction.

Context (P : Object3DTree → Prop).
Hypothesis HNode : ∀ o children, Forall P children → P (Node o children).

Fixpoint Object3DTree_forall_ind (t : Object3DTree) : P t :=
  match t with
  | Node o children =>
      HNode o children
        ((fix go (l : list Object3DTree) : Forall P l :=
            match l with
            | [] => @List.Forall_nil _ P
            | c :: cs => @List.Forall_cons _ P c cs (Object3DTree_forall_ind c) (go cs)
            end) children)
  end.

End Object3DTree_induction.

(** The three groups, and the group the classification rule of the design
    assigns to an object of heap [h]: none to an object without a material or
    with a falsy [visible]; WBOIT when every material has both flags set;
    else transparent when every material has [transparent] set; else opaque.
    A flag counts as set when it is truthy, which for a boolean means
    [true]. *)
Inductive Group := Opaque | SimpleTransparent | Wboit.

#[global] Instance Group_eq_dec : EqDecision Group.
Proof. solve_decision. Defined.

Definition all_transparent (h : Heap) (materials : list nat) : bool :=
  forallb (fun m => truthy (transparent (mats h m))) materials.

Definition all_wboit (h : Heap) (materials : list nat) : bool :=
  forallb (fun m => truthy (transparent (mats h m)) && truthy (wboitEnabled (mats h m)))
    materials.

Definition spec_group (h : Heap) (o : nat) : option Group :=
  let object := objs h o in
  if has_material (material object) && truthy (visible object) then
    let materials := as_array (material object) in
    Some (if all_wboit h materials then Wboit
          else if all_transparent h materials then SimpleTransparent
          else Opaque)
  else None.

Definition in_exactly_one_group (f : Frame) (o : nat) : Prop :=
  (o ∈ opaqueMeshes f ∧ (o ∉ transparentMeshes f) ∧ (o ∉ wboitMeshes f)) ∨
  ((o ∉ opaqueMeshes f) ∧ o ∈ transparentMeshes f ∧ (o ∉ wboitMeshes f)) ∨
  ((o ∉ opaqueMeshes f) ∧ (o ∉ transparentMeshes f) ∧ o ∈ wboitMeshes f).

(** Heaps that differ at most in the depth fields of materials. *)
Definition forget_depth (m : Material) : Material :=
  set_depthTest JsUndefined (set_depthWrite JsUndefined m).

Definition depth_only (h h' : Heap) : Prop :=
  objs h' = objs h ∧ ∀ m, forget_depth (mats h' m) = forget_depth (mats h m).

(** Heaps whose objects differ at most in [visible]. *)
Definition forget_visible (o : Object3D) : Object3D := set_visible JsUndefined o.

Definition visibility_only (h h' : Heap) : Prop :=
  ∀ o, forget_visible (objs h' o) = forget_visible (objs h o).

(** The frame one visit of a classified object produces. *)
Definition visit_result (g : Group) (o : nat) (f : Frame) : Frame :=
  let materials := as_array (material (objs (heap f) o)) in
  let c := (gather_flags (heap f) materials (JsBool true) (JsBool true) (caches f)).2 in
  let v := visible (objs (heap f) o) in
  match g with
  | Opaque =>
      mkFrame (force_depth (JsBool true) (JsBool true) materials (heap f))
        (cache_visible o v c)
        (opaqueMeshes f ++ [o]) (transparentMeshes f) (wboitMeshes f)
  | SimpleTransparent =>
      mkFrame (force_depth (JsBool true) (JsBool false) materials (heap f))
        (cache_visible o v c)
        (opaqueMeshes f) (transparentMeshes f ++ [o]) (wboitMeshes f)
  | Wboit =>
      mkFrame (heap f) (cache_visible o v (snapshot_blend (heap f) materials c))
        (opaqueMeshes f) (transparentMeshes f) (wboitMeshes f ++ [o])
  end.

(** The four blend caches hold the blend fields heap [h0] has for [m]. *)
Definition blend_snapshot (h0 : Heap) (c : Caches) (m : nat) : Prop :=
  _blendingCache c !! m = Some (blending (mats h0 m)) ∧
  _blendEquationCache c !! m = Some (blendEquation (mats h0 m)) ∧
  _blendSrcCache c !! m = Some (blendSrc (mats h0 m)) ∧
  _blendDstCache c !! m = Some (blendDst (mats h0 m)).

(** The visibility cache against a heap [h0]: every entry holds the object's
    visibility in [h0], and every grouped object has an entry. *)
Definition visibility_cached (h0 : Heap) (f : Frame) : Prop :=
  (∀ k v, (k, v) ∈ _visibilityCache (caches f) → v = visible (objs h0 k)) ∧
  (∀ o, o ∈ opaqueMeshes f ∨ o ∈ transparentMeshes f ∨ o ∈ wboitMeshes f →
        o ∈ (_visibilityCache (caches f)).*1).

(** Every mesh of the WBOIT group has a material, so the configurator can
    read its materials. *)
Definition wboit_ready (f : Frame) : Prop :=
  ∀ o, o ∈ wboitMeshes f → has_material (material (objs (heap f) o)) = true.

(** The flags [prepareWboitBlending] insists on: both are exactly [true]. *)
Definition eligible (h : Heap) (m : nat) : bool :=
  is_true (wboitEnabled (mats h m)) && is_true (transparent (mats h m)).

(** The materials the configurator's loops run over, in order. *)
Definition wboit_materials (f : Frame) : list nat :=
  flat_map (fun o => as_array (material (objs (heap f) o))) (wboitMeshes f).

(** Whether the configurator writes to material [m]. *)
Definition touched (f : Frame) (m : nat) : bool :=
  eligible (heap f) m && (0 <? count_occ Nat.eq_dec (wboit_materials f) m).

(** The calls one probe iteration makes. *)
Definition probe_calls (i : nat) : list Call :=
  [CallShaderPass TestPass (ProbeTarget i) None; CallReadPixels i].

(** The calls of a frame after the optional clear of the write buffer. *)
Definition frame_calls (writeBuffer old : Target) (oldColor oldAlpha : JsVal) : list Call :=
  [ CallSetRenderTarget BaseTarget; CallSetClearColor _clearColorZero (JsNum 0);
    CallClear; CallRender;
    CallShaderPass OpaquePass writeBuffer (Some BaseTarget);
    CallSetRenderTarget BaseTarget; CallClearColor; CallRender;
    CallShaderPass TransparentPass writeBuffer (Some BaseTarget);
    CallSetRenderTarget BaseTarget; CallClearColor; CallRender;
    CallShaderPass CopyPass AccumulationTarget (Some BaseTarget);
    CallSetRenderTarget BaseTarget; CallSetClearColor _clearColorOne (JsNum 1);
    CallClearColor; CallRender;
    CallSetRenderTarget writeBuffer;
    CallShaderPass CompositePass writeBuffer None;
    CallSetRenderTarget old; CallSetClearColor oldColor oldAlpha ].

Section Vocabulary.

Context (W : WboitStagesT) (toFixed1 : float → string).

(** What one pass of the inner loop does to an eligible material. *)
Definition stage_step (stage : float) (c : Caches) (m : nat) (x : Material) : Material :=
  blend_for_stage W stage c m (send_stage toFixed1 stage x).

(** The stage numbers are numbers equal to themselves (not NaN) and told
    apart by [===]. *)
Definition stages_distinct : Prop :=
  (Acummulation W =? Acummulation W)%float = true ∧
  (Revealage W =? Revealage W)%float = true ∧
  (Revealage W =? Acummulation W)%float = false ∧
  (Normal W =? Acummulation W)%float = false ∧
  (Normal W =? Revealage W)%float = false.

(** The frame a returning invocation of the configurator leaves. *)
Definition prepared (stage : float) (f : Frame) : Frame :=
  with_heap (prepare_materials W toFixed1 stage (caches f) (wboit_materials f) (heap f)) f.

(** The frame at the end of the body of [render], from the frame
    classification built. *)
Definition frame_at_end (f : Frame) : Frame :=
  resetVisible
    (prepared (Normal W)
       (prepared (Revealage W)
          (prepared (Acummulation W)
             (changeVisible false false true
                (changeVisible false true false
                   (changeVisible true false false f)))))).

End Vocabulary.

(** [m.uniforms[name].value], when the material has the uniform. *)
Definition uniform_of (name : string) (m : Material) : option JsVal :=
  u ← uniforms m; u !! name.

(** Whether the visitor of [gatherMeshes] gets past its two guards on
    object [o]: the object has a material and a truthy [visible]. *)
Definition visited (h : Heap) (o : nat) : bool :=
  has_material (material (objs h o)) && truthy (visible (objs h o)).

(** The materials the loops of the visitor run over while it is called on
    the objects [l], in order and with repetitions. *)
Definition visited_materials (h : Heap) (l : list nat) : list nat :=
  flat_map (fun o => if visited h o then as_array (material (objs h o)) else []) l.

(** What the inner loop of [resetVisible] leaves in a material. *)
Definition reset_material (c : Caches) (m : nat) (x : Material) : Material :=
  set_depthTest (Map_get m (_depthWriteCache c))
    (set_depthWrite (Map_get m (_depthTestCache c)) x).

(** Material [m] is one of the materials of a mesh of the list. *)
Definition material_of (h : Heap) (meshes : list nat) (m : nat) : Prop :=
  ∃ o, o ∈ meshes ∧ m ∈ as_array (material (objs h o)).

(** Material [m] is one of the materials of an object of [l] that the
    classification rule puts in group [g]. *)
Definition material_in_group (h : Heap) (l : list nat) (g : Group) (m : nat) : Prop :=
  material_of h (filter (fun o => spec_group h o = Some g) l) m.

(** ** A concrete host *)

(** A stage table: three distinct numbers, [Normal] being 0. *)
Definition SampleStages : WboitStagesT := mkWboitStages 0 1 2.

(** [x.toFixed(1)] for a number of magnitude below 1e21, where the result is
    the decimal expansion of the integer nearest to [10 x] (the larger one on
    a tie) with one digit after the point. *)
Definition Number_toFixed1 (x : float) : string :=
  match Prim2SF x with
  | S754_nan => "NaN"
  | S754_infinity s => if s then "-Infinity" else "Infinity"
  | S754_zero _ => "0.0"
  | S754_finite s m e =>
      let n : Z :=
        if (0 <=? e)%Z then (Z.pos m * 2 ^ e * 10)%Z
        else ((2 * (Z.pos m * 10) + 2 ^ (- e)) / (2 * 2 ^ (- e)))%Z in
      (if s then "-" else "") +:+ pretty (n / 10)%Z +:+ "." +:+ pretty (n mod 10)%Z
  end.

(** A default material of three.js and a bare object. *)
Definition plain_material : Material :=
  mkMaterial (JsBool false) JsUndefined NormalBlending AddEquation SrcAlphaFactor
    OneMinusSrcAlphaFactor (JsBool true) (JsBool true) JsUndefined None.

Definition bare_object : Object3D :=
  mkObject3D NoMaterial (JsBool true) JsUndefined JsNull.

Definition a_scene : Object3D :=
  mkObject3D NoMaterial (JsBool true) (JsBool true) JsNull.

Definition mesh (slot : MaterialSlot) (visible_ : bool) : Object3D :=
  mkObject3D slot (JsBool visible_) JsUndefined JsNull.

Definition no_gl : GlContext :=
  mkGl (fun _ => false) (fun _ => (0, 0, 0, 0)%float).

Definition a_renderer (gl : GlContext) (pixelRatio : float) : WebGLRenderer :=
  mkRenderer (JsBool true) (JsColor 0 0 0) (JsNum 1) Screen (JsStr SRGBColorSpace)
    800 600 pixelRatio gl [].

(** A context without renderable float formats: the float framebuffer is
    incomplete, the half-float read-back stays zero, 8-bit round-trips. *)
Definition gl_8bit_only : GlContext :=
  mkGl (fun i => match i with 0 => false | _ => true end)
       (fun i => match i with
                 | 2 => (255, 255, 255, 0)
                 | _ => (0, 0, 0, 0)
                 end%float).

(** A context on which the float round trip succeeds. *)
Definition gl_float : GlContext :=
  mkGl (fun _ => true)
       (fun i => match i with
                 | 0 => (1, 1, 1, 0)
                 | 1 => (15360, 15360, 15360, 0)
                 | _ => (255, 255, 255, 0)
                 end%float).

(** The pass the constructor leaves for a 800x600 renderer, given the scene
    and the clear colour and alpha. *)
Definition a_pass (scene_ : SceneArg) (clearColor_ clearAlpha_ : JsVal) : WboitPass :=
  mkWboitPass scene_ (JsObj 0) clearColor_ clearAlpha_ false false false
    (JsColor 0 0 0) empty_caches
    new_opaquePass new_transparentPass new_copyPass new_compositePass
    (mkRenderTarget 800 600 UnsignedByteType true)
    (mkRenderTarget 800 600 UnsignedByteType false).

Definition empty_heap : Heap := mkHeap (fun _ => bare_object) (fun _ => plain_material).

(** A scene with one invisible mesh: object 0 is the scene, object 1 the
    mesh, material 0 its material. *)
Definition hidden_mesh_heap : Heap :=
  mkHeap (fun o => match o with
                   | 0 => a_scene
                   | 1 => mesh (SingleMaterial 0) false
                   | _ => bare_object
                   end)
         (fun _ => plain_material).

Definition one_mesh_scene : Object3DTree := Node 0 [Node 1 []].

(** A material made for the pass: transparent, WBOIT-enabled, not writing
    depth. *)
Definition wboit_material (renderStage_ : JsVal) (uniforms_ : option (gmap string JsVal))
    : Material :=
  mkMaterial (JsBool true) (JsBool true) NormalBlending AddEquation SrcAlphaFactor
    OneMinusSrcAlphaFactor (JsBool true) (JsBool false) renderStage_ uniforms_.

(** A visible mesh with two materials, one WBOIT-enabled and one opaque. *)
Definition mixed_mesh_heap : Heap :=
  mkHeap (fun o => match o with
                   | 0 => a_scene
                   | 1 => mesh (MaterialArray [0; 1]) true
                   | _ => bare_object
                   end)
         (fun m => match m with
                   | 0 => wboit_material JsUndefined (Some {[ "renderStage" := JsNum 0 ]})
                   | _ => plain_material
                   end).

(** A visible mesh with one WBOIT material that has the uniform. *)
Definition wboit_mesh_heap : Heap :=
  mkHeap (fun o => match o with
                   | 0 => a_scene
                   | 1 => mesh (SingleMaterial 0) true
                   | _ => bare_object
                   end)
         (fun _ => wboit_material JsUndefined (Some {[ "renderStage" := JsNum 0 ]})).

(** A visible mesh whose WBOIT material has the stage field, holding the
    number 0, and no uniform table. *)
Definition stage_field_heap : Heap :=
  mkHeap (fun o => match o with
                   | 0 => a_scene
                   | 1 => mesh (SingleMaterial 0) true
                   | _ => bare_object
                   end)
         (fun _ => wboit_material (JsNum 0) None).

(** The frame classification leaves for that mesh. *)
Definition stage_field_frame : Frame :=
  gatherMeshes one_mesh_scene (mkFrame stage_field_heap empty_caches [] [] []).

(** A visible opaque mesh whose material has the given depth fields. *)
Definition depth_heap (depthTest_ depthWrite_ : JsVal) : Heap :=
  mkHeap (fun o => match o with
                   | 0 => a_scene
                   | 1 => mesh (SingleMaterial 0) true
                   | _ => bare_object
                   end)
         (fun _ => set_depthWrite depthWrite_ (set_depthTest depthTest_ plain_material)).

(** The depth fields of material 0 and the visibility of object 1 after a
    sequence of renders, if it returned. *)
Definition depth_and_visibility
    (c : Completion (WboitPass * WebGLRenderer * Heap)) : option (JsVal * JsVal * JsVal) :=
  match c with
  | Returns (_, _, h) => Some (depthTest (mats h 0), depthWrite (mats h 0), visible (objs h 1))
  | Throws _ => None
  end.

(** ** Properties *)

Example toFixed1_stages :
  map Number_toFixed1 [0; 1; 2; 1.25; -0.5]%float = ["0.0"; "1.0"; "2.0"; "1.3"; "-0.5"].
Proof. vm_compute. reflexivity. Qed.

Example fuzzyEqual_half_float_one : fuzzyEqual (15360 / 15360) testR = true.
Proof. vm_compute. reflexivity. Qed.

Example fuzzyEqual_off_by_a_sixteenth : fuzzyEqual 1.0625 testR = false.
Proof. vm_compute. reflexivity. Qed.

(** *** Missing scene *)

(** C6. [render] on a pass whose [scene] is [null], [undefined], any other
    value that is no scene-graph object, or an object whose [isScene] is
    falsy, returns at once: the pass, the renderer (its autoClear flag, clear
    colour and alpha, bound target and the list of calls made to it, so no
    render target is bound) and the heap (every material and every object's
    visibility) are what they were. *)
Theorem render_without_scene_is_noop
    (W : WboitStagesT) (toFixed1 : float → string)
    (pass : WboitPass) (renderer : WebGLRenderer) (writeBuffer : Target) (h : Heap) :
  ((∃ v, scene pass = SceneOther v) ∨
   (∃ t, scene pass = SceneObject t ∧ truthy (isScene (objs h (root t))) = false)) →
  render W toFixed1 pass renderer writeBuffer h = Returns (pass, renderer, h).
Proof.
  intros [[v Hv] | [t [Ht Hs]]]; unfold render, scene_valid; rewrite ?Hv, ?Ht.
  - reflexivity.
  - now rewrite Hs.
Qed.

Lemma render_without_scene_is_noop_witness :
  render SampleStages Number_toFixed1 (a_pass (SceneOther JsNull) (JsNum 0) (JsNum 0))
    (a_renderer no_gl 1) Screen empty_heap
  = Returns (a_pass (SceneOther JsNull) (JsNum 0) (JsNum 0), a_renderer no_gl 1, empty_heap).
Proof.
  apply render_without_scene_is_noop. left. exists JsNull. reflexivity.
Defined.

(** *** Construction without a renderer *)

(** C7, on the code.  With a falsy [renderer] the constructor logs the error
    and returns before [super()] has run; in a derived class that leaves
    [this] uninitialised, so the [new] expression throws a ReferenceError
    instead of completing quietly. *)
Theorem constructor_without_renderer_throws
    (v : JsVal) (scene_ : SceneArg) (camera_ clearColor_ clearAlpha_ : JsVal) :
  truthy v = false →
  new_WboitPass (NoRenderer v) scene_ camera_ clearColor_ clearAlpha_
  = (["WboitPass: Renderer must be supplied!"], Throws ReferenceError, NoRenderer v).
Proof.
  intros Hv. unfold new_WboitPass, constructor_body. now rewrite Hv.
Qed.

Lemma constructor_without_renderer_throws_witness :
  new_WboitPass (NoRenderer JsNull) (SceneOther JsNull) JsUndefined JsUndefined JsUndefined
  = (["WboitPass: Renderer must be supplied!"], Throws ReferenceError, NoRenderer JsNull).
Proof.
  apply constructor_without_renderer_throws. reflexivity.
Defined.

(** *** The capability probe *)

Lemma r_gl_log c r : r_gl (log c r) = r_gl r.
Proof. reflexivity. Qed.

(** C5. The probe tries float, then half-float, then 8-bit unsigned, in that
    order, and stops at the first candidate whose round trip (complete
    framebuffer and the four channels within 0.01 of the fill colour) passes;
    when float and half-float fail it takes 8-bit whether or not 8-bit
    passes.  So a context that passes float yields float, and one that fails
    float and half-float yields 8-bit.  Both render targets of the pass are
    allocated with the selected type. *)
Theorem probe_selects_first_passing_candidate (renderer : WebGLRenderer) :
  let gl := r_gl renderer in
  let selected := fst (probe renderer) in
  let made := calls (snd (probe renderer)) in
  (if round_trip_ok gl 0 then
     selected = FloatType ∧ made = calls renderer ++ probe_calls 0
   else if round_trip_ok gl 1 then
     selected = HalfFloatType ∧ made = calls renderer ++ probe_calls 0 ++ probe_calls 1
   else
     selected = UnsignedByteType ∧
     made = calls renderer ++ probe_calls 0 ++ probe_calls 1 ++ probe_calls 2)
  ∧ (round_trip_ok gl 0 = true → selected = FloatType)
  ∧ (round_trip_ok gl 0 = false → round_trip_ok gl 1 = false →
     round_trip_ok gl 2 = true → selected = UnsignedByteType)
  ∧ (∀ scene_ camera_ clearColor_ clearAlpha_,
       ∃ this renderer',
         new_WboitPass (Renderer renderer) scene_ camera_ clearColor_ clearAlpha_
         = ([], Returns (ThePass this), Renderer renderer') ∧
         rt_type (baseTarget this) = selected ∧
         rt_type (accumulationTarget this) = selected).
Proof.
  intros gl selected made.
  assert (Hmain :
    if round_trip_ok gl 0 then
      selected = FloatType ∧ made = calls renderer ++ probe_calls 0
    else if round_trip_ok gl 1 then
      selected = HalfFloatType ∧ made = calls renderer ++ probe_calls 0 ++ probe_calls 1
    else
      selected = UnsignedByteType ∧
      made = calls renderer ++ probe_calls 0 ++ probe_calls 1 ++ probe_calls 2).
  { subst selected made gl. unfold probe. cbn [probe_loop targetTypes].
    rewrite !r_gl_log. cbn [r_gl ShaderPass_render log].
    destruct (round_trip_ok (r_gl renderer) 0) eqn:H0.
    { cbn. rewrite <- app_assoc. auto. }
    cbn [orb length Nat.sub Nat.eqb fst snd].
    destruct (round_trip_ok (r_gl renderer) 1) eqn:H1.
    { cbn. rewrite <- !app_assoc. auto. }
    cbn [orb length Nat.sub Nat.eqb fst snd].
    rewrite orb_true_r. cbn. rewrite <- !app_assoc. auto. }
  split; [exact Hmain|]. split; [|split].
  - intros H0. rewrite H0 in Hmain. tauto.
  - intros H0 H1 _. rewrite H0, H1 in Hmain. tauto.
  - intros scene_ camera_ clearColor_ clearAlpha_.
    unfold new_WboitPass, constructor_body. subst selected.
    destruct (probe renderer) as [targetType r']. cbn.
    eexists _, _. split; [reflexivity|]. split; reflexivity.
Qed.

Lemma probe_selects_first_passing_candidate_witness :
  fst (probe (a_renderer gl_float 1)) = FloatType ∧
  fst (probe (a_renderer gl_8bit_only 1)) = UnsignedByteType.
Proof.
  split.
  - pose proof (probe_selects_first_passing_candidate (a_renderer gl_float 1))
      as (_ & H & _).
    apply H. vm_compute. reflexivity.
  - pose proof (probe_selects_first_passing_candidate (a_renderer gl_8bit_only 1))
      as (_ & _ & H & _).
    apply H; vm_compute; reflexivity.
Defined.

(** The test of a candidate is the conjunction the source builds: a complete
    framebuffer and each read-back channel, divided by the format's divisor,
    within epsilon of the fill colour. *)
Lemma round_trip_ok_spec (gl : GlContext) (i : nat) :
  round_trip_ok gl i = true ↔
  framebufferComplete gl i = true ∧
  let '(r, g, b, a) := readPixels gl i in
  let d := default nan (targetDivisor !! i) in
  (fuzzyEqual (r / d) testR = true ∧ fuzzyEqual (g / d) testG = true ∧
   fuzzyEqual (b / d) testB = true ∧ fuzzyEqual (a / d) testA = true)%float.
Proof.
  unfold round_trip_ok. destruct (readPixels gl i) as [[[r g] b] a].
  rewrite !andb_true_iff. tauto.
Qed.

(** *** Resizing *)

Lemma float_neq_by (f : float → bool) (x y : float) : f x ≠ f y → x ≠ y.
Proof. intros H E. apply H. now rewrite E. Qed.

(** C9. [setSize(w, h)] gives both render targets exactly the size [w] by [h]
    and changes no other field of either target or of the pass; it does not
    consult the renderer, so no pixel ratio enters.  The constructor
    allocates both targets at the renderer's size times its pixel ratio.  On
    a 800x600 renderer of pixel ratio 2 the constructed targets are 1600 wide
    and [setSize(800, 600)] makes them 800 wide. *)
Theorem setSize_ignores_pixel_ratio :
  (∀ (p : WboitPass) (w h : float),
     let p' := setSize w h p in
     rt_width (baseTarget p') = w ∧ rt_height (baseTarget p') = h ∧
     rt_width (accumulationTarget p') = w ∧ rt_height (accumulationTarget p') = h ∧
     rt_type (baseTarget p') = rt_type (baseTarget p) ∧
     rt_depthBuffer (baseTarget p') = rt_depthBuffer (baseTarget p) ∧
     rt_type (accumulationTarget p') = rt_type (accumulationTarget p) ∧
     rt_depthBuffer (accumulationTarget p') = rt_depthBuffer (accumulationTarget p) ∧
     scene p' = scene p ∧ camera p' = camera p ∧
     clearColor p' = clearColor p ∧ clearAlpha p' = clearAlpha p ∧
     clear p' = clear p ∧ clearDepth p' = clearDepth p ∧ needsSwap p' = needsSwap p ∧
     _oldClearColor p' = _oldClearColor p ∧ pass_caches p' = pass_caches p ∧
     opaquePass p' = opaquePass p ∧ transparentPass p' = transparentPass p ∧
     copyPass p' = copyPass p ∧ compositePass p' = compositePass p)
  ∧ (∀ (r : WebGLRenderer) (scene_ : SceneArg) (camera_ clearColor_ clearAlpha_ : JsVal),
       ∃ this r',
         new_WboitPass (Renderer r) scene_ camera_ clearColor_ clearAlpha_
         = ([], Returns (ThePass this), Renderer r') ∧
         rt_width (baseTarget this) = (r_width r * r_pixelRatio r)%float ∧
         rt_height (baseTarget this) = (r_height r * r_pixelRatio r)%float ∧
         rt_width (accumulationTarget this) = (r_width r * r_pixelRatio r)%float ∧
         rt_height (accumulationTarget this) = (r_height r * r_pixelRatio r)%float)
  ∧ (∃ this r',
       let r := a_renderer gl_float 2 in
       new_WboitPass (Renderer r) (SceneOther JsNull) JsNull JsUndefined JsUndefined
       = ([], Returns (ThePass this), Renderer r') ∧
       rt_width (baseTarget this) = 1600%float ∧
       rt_width (baseTarget (setSize (r_width r) (r_height r) this)) = 800%float ∧
       rt_width (baseTarget this)
       ≠ rt_width (baseTarget (setSize (r_width r) (r_height r) this))).
Proof.
  split; [|split].
  - intros p w h p'. subst p'. cbn. repeat split; reflexivity.
  - intros r scene_ camera_ clearColor_ clearAlpha_.
    unfold new_WboitPass, constructor_body.
    destruct (probe r) as [targetType r']. cbn.
    eexists _, _. split; [reflexivity|]. repeat split; reflexivity.
  - eexists _, _. cbv zeta. split; [vm_compute; reflexivity|].
    split; [vm_compute; reflexivity|]. split; [vm_compute; reflexivity|].
    apply (float_neq_by (fun x => x <? 1000)%float). vm_compute. discriminate.
Qed.

(** *** Traversal *)

(** [traverse] calls the visitor on the objects of the graph in preorder. *)
Lemma traverse_preorder {S : Type} (callback : nat → S → S) (t : Object3DTree) :
  ∀ s, traverse callback t s = fold_left (fun s o => callback o s) (preorder t) s.
Proof.
  induction t as [o children IH] using Object3DTree_forall_ind.
  intros s. cbn [traverse preorder fold_left].
  generalize (callback o s). clear s.
  induction IH as [|c cs Hc _ IHcs]; intros s; cbn [fold_left flat_map].
  - reflexivity.
  - rewrite fold_left_app, <- Hc. apply IHcs.
Qed.

(** *** Classification *)

Lemma truthy_js_and a b : truthy (js_and a b) = truthy a && truthy b.
Proof. unfold js_and. destruct (truthy a) eqn:E; [reflexivity | exact E]. Qed.

Lemma gather_flags_truthy h materials :
  ∀ t w c,
    truthy (gather_flags h materials t w c).1.1 = truthy t && all_transparent h materials ∧
    truthy (gather_flags h materials t w c).1.2 =
      truthy w && match materials with [] => true | _ => truthy t end
      && all_wboit h materials.
Proof.
  induction materials as [|mi rest IH]; intros t w c; cbn [gather_flags].
  - cbn. now rewrite !andb_true_r.
  - destruct (IH (js_and t (transparent (mats h mi)))
                 (js_and (js_and w (js_and t (transparent (mats h mi))))
                    (wboitEnabled (mats h mi)))
                 (mkCaches (_visibilityCache c) (_blendingCache c) (_blendEquationCache c)
                    (_blendSrcCache c) (_blendDstCache c)
                    (<[mi := depthTest (mats h mi)]> (_depthTestCache c))
                    (<[mi := depthWrite (mats h mi)]> (_depthWriteCache c))))
      as [Ht Hw].
    rewrite Ht, Hw, !truthy_js_and. cbn [all_transparent all_wboit forallb].
    split.
    + now rewrite andb_assoc.
    + destruct (truthy w), (truthy t), (truthy (transparent (mats h mi))),
        (truthy (wboitEnabled (mats h mi))), rest; reflexivity.
Qed.

Lemma depth_only_refl h : depth_only h h.
Proof. split; reflexivity. Qed.

Lemma depth_only_trans h1 h2 h3 :
  depth_only h1 h2 → depth_only h2 h3 → depth_only h1 h3.
Proof.
  intros [Ho1 Hm1] [Ho2 Hm2]. split; [congruence|].
  intros m. now rewrite Hm2.
Qed.

Lemma mats_upd_mat mi g h m :
  mats (upd_mat mi g h) m = if decide (mi = m) then g (mats h mi) else mats h m.
Proof.
  unfold upd_mat. cbn [mats]. unfold insert, fn_insert.
  destruct (decide (mi = m)); reflexivity.
Qed.

Lemma objs_upd_obj oi g h o :
  objs (upd_obj oi g h) o = if decide (oi = o) then g (objs h oi) else objs h o.
Proof.
  unfold upd_obj. cbn [objs]. unfold insert, fn_insert.
  destruct (decide (oi = o)); reflexivity.
Qed.

(** Reads a heap cell after updates, by cases on the references. *)
Ltac heap_cases :=
  rewrite ?mats_upd_mat, ?objs_upd_obj; repeat case_decide; simplify_eq;
  try reflexivity.

Lemma force_depth_depth_only test write materials :
  ∀ h, depth_only h (force_depth test write materials h).
Proof.
  induction materials as [|mi rest IH]; intros h; cbn [force_depth].
  - apply depth_only_refl.
  - eapply depth_only_trans; [|apply IH].
    split; [reflexivity|]. intros m. heap_cases.
Qed.

Lemma depth_only_transparent h h' m :
  depth_only h h' → transparent (mats h' m) = transparent (mats h m).
Proof. intros [_ H]. exact (f_equal transparent (H m)). Qed.

Lemma depth_only_wboitEnabled h h' m :
  depth_only h h' → wboitEnabled (mats h' m) = wboitEnabled (mats h m).
Proof. intros [_ H]. exact (f_equal wboitEnabled (H m)). Qed.

Lemma forallb_pointwise {A : Type} (f g : A → bool) (l : list A) :
  (∀ x, f x = g x) → forallb f l = forallb g l.
Proof. intros H. induction l as [|x l IH]; cbn; [reflexivity | now rewrite H, IH]. Qed.

Lemma depth_only_spec_group h h' o :
  depth_only h h' → spec_group h' o = spec_group h o.
Proof.
  intros H. unfold spec_group. destruct H as [Ho Hm] eqn:E. rewrite Ho.
  assert (Ht : ∀ ms, all_transparent h' ms = all_transparent h ms).
  { intros ms. unfold all_transparent. apply forallb_pointwise. intros m.
    now rewrite (depth_only_transparent h h' m H). }
  assert (Hw : ∀ ms, all_wboit h' ms = all_wboit h ms).
  { intros ms. unfold all_wboit. apply forallb_pointwise. intros m.
    now rewrite (depth_only_transparent h h' m H), (depth_only_wboitEnabled h h' m H). }
  now rewrite Ht, Hw.
Qed.

(** One visit: the heap changes in depth fields only, and the object joins
    the group the rule assigns to it, if any. *)
Lemma gather_visit_groups o f :
  let f' := gather_visit o f in
  depth_only (heap f) (heap f') ∧
  opaqueMeshes f' =
    opaqueMeshes f ++ (if decide (spec_group (heap f) o = Some Opaque) then [o] else []) ∧
  transparentMeshes f' =
    transparentMeshes f ++
    (if decide (spec_group (heap f) o = Some SimpleTransparent) then [o] else []) ∧
  wboitMeshes f' =
    wboitMeshes f ++ (if decide (spec_group (heap f) o = Some Wboit) then [o] else []).
Proof.
  unfold gather_visit, spec_group.
  destruct (has_material (material (objs (heap f) o))); cbn [negb andb];
    [|rewrite !app_nil_r; auto using depth_only_refl].
  destruct (truthy (visible (objs (heap f) o))); cbn [negb];
    [|rewrite !app_nil_r; auto using depth_only_refl].
  pose proof (gather_flags_truthy (heap f) (as_array (material (objs (heap f) o)))
                (JsBool true) (JsBool true) (caches f)) as [Ht Hw].
  destruct (gather_flags _ _ _ _ _) as [[t w] c]. cbn [fst snd truthy andb] in Ht, Hw.
  assert (Hw' : truthy w = all_wboit (heap f) (as_array (material (objs (heap f) o)))).
  { rewrite Hw. now destruct (as_array _). }
  rewrite <- Hw', <- Ht. clear Ht Hw Hw'.
  destruct (truthy w); cbn [negb].
  - cbn. rewrite !app_nil_r. auto using depth_only_refl.
  - destruct (truthy t); cbn; rewrite !app_nil_r;
      auto using depth_only_refl, force_depth_depth_only.
Qed.

(** The whole traversal, against the rule read on a heap [h0] that the
    frame's heap agrees with up to depth fields. *)
Lemma gather_fold_groups h0 l :
  ∀ f, depth_only h0 (heap f) →
    let f' := fold_left (fun s o => gather_visit o s) l f in
    depth_only h0 (heap f') ∧
    opaqueMeshes f' =
      opaqueMeshes f ++ filter (fun o => spec_group h0 o = Some Opaque) l ∧
    transparentMeshes f' =
      transparentMeshes f ++ filter (fun o => spec_group h0 o = Some SimpleTransparent) l ∧
    wboitMeshes f' =
      wboitMeshes f ++ filter (fun o => spec_group h0 o = Some Wboit) l.
Proof.
  induction l as [|o l IH]; intros f Hf; cbn [fold_left].
  - rewrite !filter_nil, !app_nil_r. auto.
  - destruct (gather_visit_groups o f) as (Hd & Ho & Ht & Hw).
    rewrite (depth_only_spec_group h0 (heap f) o Hf) in Ho, Ht, Hw.
    destruct (IH (gather_visit o f)) as (Hd' & Ho' & Ht' & Hw').
    { eapply depth_only_trans; eassumption. }
    cbv zeta. split; [exact Hd'|].
    rewrite Ho', Ht', Hw', Ho, Ht, Hw, !filter_cons, <- !app_assoc. clear.
    repeat split; f_equal; destruct (decide _); reflexivity.
Qed.

Lemma gatherMeshes_groups scene_ h c :
  let f := gatherMeshes scene_ (mkFrame h c [] [] []) in
  depth_only h (heap f) ∧
  opaqueMeshes f = filter (fun o => spec_group h o = Some Opaque) (preorder scene_) ∧
  transparentMeshes f =
    filter (fun o => spec_group h o = Some SimpleTransparent) (preorder scene_) ∧
  wboitMeshes f = filter (fun o => spec_group h o = Some Wboit) (preorder scene_).
Proof.
  unfold gatherMeshes. rewrite traverse_preorder.
  apply (gather_fold_groups h (preorder scene_) (mkFrame h c [] [] [])).
  apply depth_only_refl.
Qed.

(** C3 as stated fails: an object with a material whose [visible] is false
    is skipped by the visitor and ends up in no group. *)
Lemma classification_skips_hidden_objects :
  ¬ (∀ (h : Heap) (scene_ : Object3DTree) (o : nat),
       o ∈ preorder scene_ →
       has_material (material (objs h o)) = true →
       in_exactly_one_group (gatherMeshes scene_ (mkFrame h empty_caches [] [] [])) o).
Proof.
  intros H.
  specialize (H hidden_mesh_heap one_mesh_scene 1).
  assert (Hin : 1 ∈ preorder one_mesh_scene).
  { cbn. apply elem_of_cons. right. apply elem_of_cons. now left. }
  specialize (H Hin eq_refl).
  unfold in_exactly_one_group in H.
  change (opaqueMeshes _) with (@nil nat) in H.
  change (transparentMeshes _) with (@nil nat) in H.
  change (wboitMeshes _) with (@nil nat) in H.
  destruct H as [(H & _) | [(_ & H & _) | (_ & _ & H)]];
    exact (not_elem_of_nil 1 H).
Qed.

(** C3, amended.  After classification every object of the scene graph that
    has a material and is visible is in exactly one of the three groups;
    the groups hold nothing but such objects, and no object is in two of
    them. *)
Theorem classification_partitions_visible_objects
    (scene_ : Object3DTree) (h : Heap) (c : Caches) :
  let f := gatherMeshes scene_ (mkFrame h c [] [] []) in
  (∀ o, o ∈ preorder scene_ →
        has_material (material (objs h o)) = true →
        truthy (visible (objs h o)) = true →
        in_exactly_one_group f o)
  ∧ (∀ o, o ∈ opaqueMeshes f ∨ o ∈ transparentMeshes f ∨ o ∈ wboitMeshes f →
          o ∈ preorder scene_ ∧
          has_material (material (objs h o)) = true ∧
          truthy (visible (objs h o)) = true)
  ∧ (∀ o, ¬ (o ∈ opaqueMeshes f ∧ o ∈ transparentMeshes f))
  ∧ (∀ o, ¬ (o ∈ opaqueMeshes f ∧ o ∈ wboitMeshes f))
  ∧ (∀ o, ¬ (o ∈ transparentMeshes f ∧ o ∈ wboitMeshes f)).
Proof.
  intros f. subst f. unfold in_exactly_one_group.
  destruct (gatherMeshes_groups scene_ h c) as (_ & Ho & Ht & Hw).
  rewrite Ho, Ht, Hw. clear Ho Ht Hw.
  assert (Hgroup : ∀ o g, spec_group h o = Some g →
            has_material (material (objs h o)) = true ∧
            truthy (visible (objs h o)) = true).
  { intros o g. unfold spec_group.
    destruct (has_material _), (truthy _); cbn; intros; by simplify_eq. }
  split; [|split; [|repeat split]].
  - intros o Hin Hm Hv. rewrite !list_elem_of_filter.
    assert (Hs : ∃ g, spec_group h o = Some g).
    { unfold spec_group. rewrite Hm, Hv. cbn. eauto. }
    destruct Hs as [[] Hs]; rewrite Hs.
    + left. split_and!; [done | done | intros [? _]; done | intros [? _]; done].
    + right; left. split_and!; [intros [? _]; done | done | done | intros [? _]; done].
    + right; right. split_and!; [intros [? _]; done | intros [? _]; done | done | done].
  - intros o. rewrite !list_elem_of_filter.
    intros [[Hs Hin] | [[Hs Hin] | [Hs Hin]]];
      (split; [exact Hin | exact (Hgroup o _ Hs)]).
  - intros o. rewrite !list_elem_of_filter. intros [[Hs _] [Hs' _]]. congruence.
  - intros o. rewrite !list_elem_of_filter. intros [[Hs _] [Hs' _]]. congruence.
  - intros o. rewrite !list_elem_of_filter. intros [[Hs _] [Hs' _]]. congruence.
Qed.

Lemma classification_partitions_visible_objects_witness :
  in_exactly_one_group
    (gatherMeshes one_mesh_scene
       (mkFrame (upd_obj 1 (set_visible (JsBool true)) hidden_mesh_heap)
          empty_caches [] [] [])) 1.
Proof.
  apply (classification_partitions_visible_objects one_mesh_scene
           (upd_obj 1 (set_visible (JsBool true)) hidden_mesh_heap) empty_caches).
  - cbn. apply elem_of_cons. right. apply elem_of_cons. now left.
  - reflexivity.
  - reflexivity.
Defined.

Lemma all_transparent_Forall h materials :
  all_transparent h materials = true ↔
  Forall (fun m => truthy (transparent (mats h m)) = true) materials.
Proof.
  unfold all_transparent. induction materials as [|m ms IH]; cbn.
  - split; [constructor | reflexivity].
  - rewrite andb_true_iff, IH, Forall_cons. reflexivity.
Qed.

Lemma all_wboit_Forall h materials :
  all_wboit h materials = true ↔
  Forall (fun m => truthy (transparent (mats h m)) = true ∧
                   truthy (wboitEnabled (mats h m)) = true) materials.
Proof.
  unfold all_wboit. induction materials as [|m ms IH]; cbn.
  - split; [constructor | reflexivity].
  - rewrite !andb_true_iff, IH, Forall_cons. reflexivity.
Qed.

(** C4. A visible object of the scene graph that has a material is put in
    the WBOIT group exactly when every one of its materials has both
    [transparent] and [wboitEnabled] set; failing that, in the transparent
    group exactly when every material has [transparent] set; and in the
    opaque group exactly when some material has not (so an object mixing
    transparent and opaque materials is opaque).  The source tests the flags
    for truthiness; on a flag that is a boolean or [undefined], as the
    flags of a material are, that is being [true]. *)
Theorem classification_follows_material_flags
    (scene_ : Object3DTree) (h : Heap) (c : Caches) (o : nat) :
  o ∈ preorder scene_ →
  truthy (visible (objs h o)) = true →
  has_material (material (objs h o)) = true →
  let f := gatherMeshes scene_ (mkFrame h c [] [] []) in
  let materials := as_array (material (objs h o)) in
  let every_wboit :=
    Forall (fun m => truthy (transparent (mats h m)) = true ∧
                     truthy (wboitEnabled (mats h m)) = true) materials in
  let every_transparent :=
    Forall (fun m => truthy (transparent (mats h m)) = true) materials in
  (o ∈ wboitMeshes f ↔ every_wboit) ∧
  (o ∈ transparentMeshes f ↔ ¬ every_wboit ∧ every_transparent) ∧
  (o ∈ opaqueMeshes f ↔ ¬ every_transparent) ∧
  (∀ v, v = JsUndefined ∨ (∃ b, v = JsBool b) → (truthy v = true ↔ v = JsBool true)).
Proof.
  intros Hin Hv Hm f materials every_wboit every_transparent.
  subst f every_wboit every_transparent materials.
  destruct (gatherMeshes_groups scene_ h c) as (_ & Ho & Ht & Hw).
  rewrite Ho, Ht, Hw, !list_elem_of_filter. clear Ho Ht Hw.
  rewrite <- all_wboit_Forall, <- all_transparent_Forall.
  unfold spec_group. rewrite Hm, Hv. cbn [andb].
  assert (Himp : all_wboit h (as_array (material (objs h o))) = true →
                 all_transparent h (as_array (material (objs h o))) = true).
  { rewrite all_wboit_Forall, all_transparent_Forall.
    intros HF. eapply Forall_impl; [exact HF|]. cbn. tauto. }
  assert (Hbool : ∀ v, v = JsUndefined ∨ (∃ b, v = JsBool b) →
                       (truthy v = true ↔ v = JsBool true)).
  { intros v [->|[b ->]]; cbn; split; congruence. }
  destruct (all_wboit h _), (all_transparent h _);
    try (specialize (Himp eq_refl)); split_and!;
    try exact Hbool; try tauto; try congruence; intros; intuition congruence.
Qed.

Lemma classification_follows_material_flags_witness :
  1 ∈ opaqueMeshes (gatherMeshes one_mesh_scene (mkFrame mixed_mesh_heap empty_caches [] [] []))
  ∧ 1 ∈ wboitMeshes (gatherMeshes one_mesh_scene (mkFrame wboit_mesh_heap empty_caches [] [] [])).
Proof.
  assert (Hin : 1 ∈ preorder one_mesh_scene).
  { cbn. apply elem_of_cons. right. apply elem_of_cons. now left. }
  split.
  - pose proof (classification_follows_material_flags one_mesh_scene mixed_mesh_heap
                  empty_caches 1 Hin eq_refl eq_refl) as (_ & _ & H & _).
    apply H. cbn. intros HF.
    apply Forall_cons in HF as [_ HF]. apply Forall_cons in HF as [HF _].
    discriminate HF.
  - pose proof (classification_follows_material_flags one_mesh_scene wboit_mesh_heap
                  empty_caches 1 Hin eq_refl eq_refl) as (H & _).
    apply H. cbn. apply Forall_cons. split; [split; reflexivity | constructor].
Defined.

(** *** The stage configurator *)

Section Configurator.

Context (W : WboitStagesT) (toFixed1 : float → string).

Lemma stage_step_flags stage c m x :
  wboitEnabled (stage_step W toFixed1 stage c m x) = wboitEnabled x ∧
  transparent (stage_step W toFixed1 stage c m x) = transparent x.
Proof.
  unfold stage_step, blend_for_stage, send_stage.
  destruct (stage =? Acummulation W)%float, (stage =? Revealage W)%float,
    (truthy (renderStage x)), (uniforms x) as [u|]; try case_decide; auto.
Qed.

Lemma prepare_materials_app stage c l1 l2 :
  ∀ h, prepare_materials W toFixed1 stage c (l1 ++ l2) h
       = prepare_materials W toFixed1 stage c l2 (prepare_materials W toFixed1 stage c l1 h).
Proof.
  induction l1 as [|mi l1 IH]; intros h; cbn [app prepare_materials]; [reflexivity|].
  destruct (_ || _); apply IH.
Qed.

Lemma prepare_materials_objs stage c materials :
  ∀ h, objs (prepare_materials W toFixed1 stage c materials h) = objs h.
Proof.
  induction materials as [|mi rest IH]; intros h; cbn [prepare_materials]; [reflexivity|].
  destruct (_ || _); rewrite IH; reflexivity.
Qed.

(** The loop applies [stage_step] to an eligible material once for each of
    its occurrences in the array, and leaves every other material alone. *)
Lemma prepare_materials_iter stage c materials :
  ∀ h m,
    mats (prepare_materials W toFixed1 stage c materials h) m
    = Nat.iter (if eligible h m then count_occ Nat.eq_dec materials m else 0)
        (stage_step W toFixed1 stage c m) (mats h m).
Proof.
  induction materials as [|mi rest IH]; intros h m; cbn [prepare_materials count_occ].
  - now destruct (eligible h m).
  - destruct (negb (is_true (wboitEnabled (mats h mi)))
              || negb (is_true (transparent (mats h mi)))) eqn:Hskip.
    + rewrite IH. destruct (Nat.eq_dec mi m) as [->|]; [|reflexivity].
      unfold eligible.
      destruct (is_true (wboitEnabled (mats h m))),
        (is_true (transparent (mats h m))); try discriminate; reflexivity.
    + rewrite IH. clear IH.
      assert (He : ∀ k, eligible (upd_mat mi (fun x => stage_step W toFixed1 stage c mi x) h) k
                        = eligible h k).
      { intros k. unfold eligible. rewrite mats_upd_mat. case_decide; [|reflexivity].
        subst k. now destruct (stage_step_flags stage c mi (mats h mi)) as [-> ->]. }
      change (fun m0 => blend_for_stage W stage c mi (send_stage toFixed1 stage m0))
        with (fun x => stage_step W toFixed1 stage c mi x).
      rewrite He, mats_upd_mat.
      destruct (Nat.eq_dec mi m) as [->|Hne].
      2: { rewrite decide_False by exact Hne. reflexivity. }
      rewrite decide_True by reflexivity.
      assert (Hel : eligible h m = true).
      { unfold eligible.
        destruct (is_true (wboitEnabled (mats h m))),
          (is_true (transparent (mats h m))); try discriminate; reflexivity. }
      rewrite Hel. now rewrite Nat.iter_succ_r.
Qed.

(** With a material on every mesh, the configurator does not throw and is the
    inner loop run over the meshes' materials in order. *)
Lemma prepare_meshes_returns stage c meshes :
  ∀ h, (∀ o, o ∈ meshes → has_material (material (objs h o)) = true) →
    prepare_meshes W toFixed1 stage c meshes h
    = Returns (prepare_materials W toFixed1 stage c
                 (flat_map (fun o => as_array (material (objs h o))) meshes) h).
Proof.
  induction meshes as [|o rest IH]; intros h Hm; cbn [prepare_meshes flat_map].
  - reflexivity.
  - assert (Ho : has_material (material (objs h o)) = true).
    { apply Hm. apply elem_of_cons. now left. }
    unfold prepare_mesh.
    destruct (material (objs h o)) eqn:Hslot; [discriminate Ho| |];
      cbn [mbind Completion_bind]; rewrite IH, prepare_materials_app;
      try (intros o' Ho'; rewrite prepare_materials_objs; apply Hm;
           apply elem_of_cons; now right);
      do 2 f_equal; apply flat_map_ext; intros o';
      now rewrite prepare_materials_objs.
Qed.

End Configurator.

(** *** What classification leaves in the caches *)

Lemma force_depth_objs test write materials h :
  objs (force_depth test write materials h) = objs h.
Proof. apply (force_depth_depth_only test write materials h). Qed.

Lemma gather_visit_eq o f :
  gather_visit o f =
  match spec_group (heap f) o with
  | Some g => visit_result g o f
  | None => f
  end.
Proof.
  unfold gather_visit, spec_group, visit_result.
  destruct (has_material (material (objs (heap f) o))); cbn [negb andb]; [|reflexivity].
  destruct (truthy (visible (objs (heap f) o))); cbn [negb]; [|reflexivity].
  pose proof (gather_flags_truthy (heap f) (as_array (material (objs (heap f) o)))
                (JsBool true) (JsBool true) (caches f)) as [Ht Hw].
  destruct (gather_flags _ _ _ _ _) as [[t w] c]. cbn [fst snd truthy andb] in Ht, Hw |- *.
  assert (Hw' : truthy w = all_wboit (heap f) (as_array (material (objs (heap f) o)))).
  { rewrite Hw. now destruct (as_array _). }
  rewrite <- Hw', <- Ht. clear Ht Hw Hw'.
  destruct (truthy w); cbn [negb]; [reflexivity|].
  destruct (truthy t); cbn [negb]; unfold with_caches; cbn [heap caches opaqueMeshes
    transparentMeshes wboitMeshes]; now rewrite force_depth_objs.
Qed.

(** The first loop touches the two depth caches only. *)
Lemma gather_flags_other_caches h materials :
  ∀ t w c,
    let c' := (gather_flags h materials t w c).2 in
    _visibilityCache c' = _visibilityCache c ∧
    _blendingCache c' = _blendingCache c ∧
    _blendEquationCache c' = _blendEquationCache c ∧
    _blendSrcCache c' = _blendSrcCache c ∧
    _blendDstCache c' = _blendDstCache c.
Proof.
  induction materials as [|mi rest IH]; intros t w c; cbn [gather_flags].
  - cbn. auto.
  - match goal with
    | |- context [gather_flags h rest ?t' ?w' ?c'] => exact (IH t' w' c')
    end.
Qed.

Lemma depth_only_blend h0 h m :
  depth_only h0 h →
  blending (mats h m) = blending (mats h0 m) ∧
  blendEquation (mats h m) = blendEquation (mats h0 m) ∧
  blendSrc (mats h m) = blendSrc (mats h0 m) ∧
  blendDst (mats h m) = blendDst (mats h0 m).
Proof.
  intros [_ H]. specialize (H m). repeat split.
  - exact (f_equal blending H).
  - exact (f_equal blendEquation H).
  - exact (f_equal blendSrc H).
  - exact (f_equal blendDst H).
Qed.

Lemma snapshot_blend_spec h0 h materials :
  depth_only h0 h →
  ∀ c k,
    (k ∈ materials → blend_snapshot h0 (snapshot_blend h materials c) k) ∧
    (blend_snapshot h0 c k → blend_snapshot h0 (snapshot_blend h materials c) k).
Proof.
  intros Hd. induction materials as [|mi rest IH]; intros c k; cbn [snapshot_blend].
  - split; [intros H; now apply elem_of_nil in H | auto].
  - set (c1 := mkCaches _ _ _ _ _ _ _).
    assert (H1 : blend_snapshot h0 c k → blend_snapshot h0 c1 k).
    { intros (Ha & Hb & Hc & He). subst c1. unfold blend_snapshot. cbn.
      destruct (depth_only_blend h0 h mi Hd) as (-> & -> & -> & ->).
      destruct (decide (mi = k)) as [->|Hne].
      - rewrite !lookup_insert_eq. auto.
      - rewrite !lookup_insert_ne by exact Hne. auto. }
    assert (H2 : blend_snapshot h0 c1 mi).
    { subst c1. unfold blend_snapshot. cbn.
      destruct (depth_only_blend h0 h mi Hd) as (-> & -> & -> & ->).
      rewrite !lookup_insert_eq. auto. }
    destruct (IH c1 k) as [IHin IHkeep]. split.
    + intros Hk. apply elem_of_cons in Hk as [->|Hk]; auto.
    + auto.
Qed.

Lemma blend_snapshot_same_caches h0 c c' k :
  _blendingCache c' = _blendingCache c →
  _blendEquationCache c' = _blendEquationCache c →
  _blendSrcCache c' = _blendSrcCache c →
  _blendDstCache c' = _blendDstCache c →
  blend_snapshot h0 c k → blend_snapshot h0 c' k.
Proof. unfold blend_snapshot. intros -> -> -> ->. auto. Qed.

(** A visit keeps every snapshot there is and, for a WBOIT object, adds the
    snapshots of its materials. *)
Lemma gather_visit_snapshot h0 o f :
  depth_only h0 (heap f) →
  (∀ k, blend_snapshot h0 (caches f) k → blend_snapshot h0 (caches (gather_visit o f)) k) ∧
  (spec_group h0 o = Some Wboit →
   ∀ k, k ∈ as_array (material (objs h0 o)) →
        blend_snapshot h0 (caches (gather_visit o f)) k).
Proof.
  intros Hd. rewrite gather_visit_eq, (depth_only_spec_group h0 (heap f) o Hd).
  pose proof (gather_flags_other_caches (heap f) (as_array (material (objs (heap f) o)))
                (JsBool true) (JsBool true) (caches f)) as (_ & Ha & Hb & Hc & He).
  cbv zeta in Ha, Hb, Hc, He.
  destruct (spec_group h0 o) as [[]|]; unfold visit_result; cbn [caches].
  - split; [|discriminate]. intros k.
    apply blend_snapshot_same_caches; assumption.
  - split; [|discriminate]. intros k.
    apply blend_snapshot_same_caches; assumption.
  - pose proof Hd as [Ho _].
    split.
    + intros k Hk.
      eapply (blend_snapshot_same_caches h0 (snapshot_blend (heap f) _ _)); cbn;
        try reflexivity.
      apply (proj2 (snapshot_blend_spec h0 (heap f) _ Hd _ k)).
      exact (blend_snapshot_same_caches h0 (caches f) _ k Ha Hb Hc He Hk).
    + intros _ k Hk. rewrite <- Ho in Hk.
      eapply (blend_snapshot_same_caches h0 (snapshot_blend (heap f) _ _)); cbn;
        try reflexivity.
      exact (proj1 (snapshot_blend_spec h0 (heap f) _ Hd _ k) Hk).
  - split; [auto | discriminate].
Qed.

Lemma gather_fold_snapshot h0 l :
  ∀ f, depth_only h0 (heap f) →
    (∀ o k, o ∈ wboitMeshes f → k ∈ as_array (material (objs h0 o)) →
            blend_snapshot h0 (caches f) k) →
    let f' := fold_left (fun s o => gather_visit o s) l f in
    ∀ o k, o ∈ wboitMeshes f' → k ∈ as_array (material (objs h0 o)) →
           blend_snapshot h0 (caches f') k.
Proof.
  induction l as [|o l IH]; intros f Hd Hinv; cbn [fold_left]; [exact Hinv|].
  destruct (gather_visit_groups o f) as (Hd' & _ & _ & Hw).
  rewrite (depth_only_spec_group h0 (heap f) o Hd) in Hw.
  destruct (gather_visit_snapshot h0 o f Hd) as [Hkeep Hnew].
  apply IH.
  - eapply depth_only_trans; eassumption.
  - intros o' k Ho' Hk. rewrite Hw in Ho'.
    apply elem_of_app in Ho' as [Ho'|Ho'].
    { apply Hkeep. eapply Hinv; eassumption. }
    case_decide as Hs; [|now apply elem_of_nil in Ho'].
    apply list_elem_of_singleton in Ho' as ->. auto.
Qed.

(** After classification the blend caches hold the pre-pass blend fields of
    every material of every WBOIT mesh. *)
Lemma gatherMeshes_snapshot scene_ h c :
  let f := gatherMeshes scene_ (mkFrame h c [] [] []) in
  ∀ o k, o ∈ wboitMeshes f → k ∈ as_array (material (objs h o)) →
         blend_snapshot h (caches f) k.
Proof.
  unfold gatherMeshes. rewrite traverse_preorder.
  apply (gather_fold_snapshot h (preorder scene_) (mkFrame h c [] [] [])).
  - apply depth_only_refl.
  - intros o k Ho. now apply elem_of_nil in Ho.
Qed.

Section StageBlend.

Context (W : WboitStagesT) (toFixed1 : float → string).

Lemma prepareWboitBlending_returns stage f :
  (∀ o, o ∈ wboitMeshes f → has_material (material (objs (heap f) o)) = true) →
  prepareWboitBlending W toFixed1 stage f
  = Returns (with_heap
               (prepare_materials W toFixed1 stage (caches f)
                  (flat_map (fun o => as_array (material (objs (heap f) o))) (wboitMeshes f))
                  (heap f)) f).
Proof.
  intros Hm. unfold prepareWboitBlending.
  now rewrite (prepare_meshes_returns W toFixed1 stage (caches f) (wboitMeshes f) (heap f) Hm).
Qed.

Lemma iter_stage_step_flags stage c m n x :
  wboitEnabled (Nat.iter n (stage_step W toFixed1 stage c m) x) = wboitEnabled x ∧
  transparent (Nat.iter n (stage_step W toFixed1 stage c m) x) = transparent x.
Proof.
  induction n as [|n [IHw IHt]]; [auto|]. rewrite Nat.iter_succ.
  destruct (stage_step_flags W toFixed1 stage c m
              (Nat.iter n (stage_step W toFixed1 stage c m) x)) as [-> ->].
  auto.
Qed.

Lemma prepare_materials_eligible stage c materials h m :
  eligible (prepare_materials W toFixed1 stage c materials h) m = eligible h m.
Proof.
  unfold eligible at 1. rewrite prepare_materials_iter.
  now destruct (iter_stage_step_flags stage c m
                  (if eligible h m then count_occ Nat.eq_dec materials m else 0)
                  (mats h m)) as [-> ->].
Qed.

(** One invocation of the configurator on a frame whose WBOIT meshes all
    have a material: it returns, keeps the caches, the groups, the objects
    and the flags, and leaves on every eligible material of a WBOIT mesh the
    result of a [stage_step]. *)
Lemma prepareWboitBlending_configures stage f o m :
  (∀ o', o' ∈ wboitMeshes f → has_material (material (objs (heap f) o')) = true) →
  o ∈ wboitMeshes f →
  m ∈ as_array (material (objs (heap f) o)) →
  eligible (heap f) m = true →
  ∃ f', prepareWboitBlending W toFixed1 stage f = Returns f' ∧
        caches f' = caches f ∧ wboitMeshes f' = wboitMeshes f ∧
        objs (heap f') = objs (heap f) ∧
        eligible (heap f') m = true ∧
        ∃ x, mats (heap f') m = stage_step W toFixed1 stage (caches f) m x.
Proof.
  intros Hmat Ho Hm He.
  rewrite (prepareWboitBlending_returns stage f Hmat).
  eexists. split; [reflexivity|]. cbn [with_heap caches wboitMeshes heap].
  split; [reflexivity|]. split; [reflexivity|].
  split; [apply prepare_materials_objs|].
  split; [now rewrite prepare_materials_eligible|].
  rewrite prepare_materials_iter, He.
  set (l := flat_map _ _).
  assert (Hpos : 0 < count_occ Nat.eq_dec l m).
  { apply count_occ_In. subst l. apply in_flat_map. exists o.
    split; now apply list_elem_of_In. }
  destruct (count_occ Nat.eq_dec l m) as [|n]; [lia|].
  rewrite Nat.iter_succ. eauto.
Qed.

Lemma stage_step_Acummulation c m x :
  (Acummulation W =? Acummulation W)%float = true →
  let y := stage_step W toFixed1 (Acummulation W) c m x in
  blending y = CustomBlending ∧ blendEquation y = AddEquation ∧
  blendSrc y = OneFactor ∧ blendDst y = OneFactor ∧
  depthWrite y = JsBool false ∧ depthTest y = JsBool true.
Proof.
  intros H. unfold stage_step, blend_for_stage. rewrite H. cbn. auto 10.
Qed.

Lemma stage_step_Revealage c m x :
  (Revealage W =? Acummulation W)%float = false →
  (Revealage W =? Revealage W)%float = true →
  let y := stage_step W toFixed1 (Revealage W) c m x in
  blending y = CustomBlending ∧ blendEquation y = AddEquation ∧
  blendSrc y = ZeroFactor ∧ blendDst y = OneMinusSrcAlphaFactor ∧
  depthWrite y = JsBool false ∧ depthTest y = JsBool true.
Proof.
  intros H1 H2. unfold stage_step, blend_for_stage. rewrite H1, H2. cbn. auto 10.
Qed.

Lemma stage_step_Normal c m x :
  (Normal W =? Acummulation W)%float = false →
  (Normal W =? Revealage W)%float = false →
  let y := stage_step W toFixed1 (Normal W) c m x in
  blending y = Map_get m (_blendingCache c) ∧
  blendEquation y = Map_get m (_blendEquationCache c) ∧
  blendSrc y = Map_get m (_blendSrcCache c) ∧
  blendDst y = Map_get m (_blendDstCache c).
Proof.
  intros H1 H2. unfold stage_step, blend_for_stage. rewrite H1, H2. cbn. auto.
Qed.

End StageBlend.

(** Every mesh classification puts in the WBOIT group has a material. *)
Lemma gatherMeshes_wboit_has_material scene_ h c :
  let f := gatherMeshes scene_ (mkFrame h c [] [] []) in
  ∀ o, o ∈ wboitMeshes f → has_material (material (objs (heap f) o)) = true.
Proof.
  intros f o Ho. subst f.
  destruct (gatherMeshes_groups scene_ h c) as ([Hobjs _] & _ & _ & Hw).
  rewrite Hw in Ho. apply list_elem_of_filter in Ho as [Hs _].
  rewrite Hobjs. unfold spec_group in Hs.
  destruct (has_material (material (objs h o))); [reflexivity | discriminate Hs].
Qed.

(** C2. Take a material of a mesh of the WBOIT group that classification
    built, with [wboitEnabled] and [transparent] both [true].  Invoking the
    configurator for the accumulation stage returns and leaves the material
    with additive custom blending, factors ONE/ONE, [depthWrite] false and
    [depthTest] true; invoking it then for the revealage stage leaves factors
    ZERO/ONE_MINUS_SRC_ALPHA with the same depth flags; invoking it then for
    the normal stage leaves [blending], [blendEquation], [blendSrc] and
    [blendDst] at the values the material had before the pass. *)
Theorem stage_blend_configuration
    (W : WboitStagesT) (toFixed1 : float → string)
    (scene_ : Object3DTree) (h : Heap) (c : Caches) (o m : nat) :
  stages_distinct W →
  let f := gatherMeshes scene_ (mkFrame h c [] [] []) in
  o ∈ wboitMeshes f →
  m ∈ as_array (material (objs h o)) →
  wboitEnabled (mats h m) = JsBool true →
  transparent (mats h m) = JsBool true →
  ∃ fA fR fN,
    prepareWboitBlending W toFixed1 (Acummulation W) f = Returns fA ∧
    prepareWboitBlending W toFixed1 (Revealage W) fA = Returns fR ∧
    prepareWboitBlending W toFixed1 (Normal W) fR = Returns fN ∧
    (blending (mats (heap fA) m) = CustomBlending ∧
     blendEquation (mats (heap fA) m) = AddEquation ∧
     blendSrc (mats (heap fA) m) = OneFactor ∧
     blendDst (mats (heap fA) m) = OneFactor ∧
     depthWrite (mats (heap fA) m) = JsBool false ∧
     depthTest (mats (heap fA) m) = JsBool true) ∧
    (blending (mats (heap fR) m) = CustomBlending ∧
     blendEquation (mats (heap fR) m) = AddEquation ∧
     blendSrc (mats (heap fR) m) = ZeroFactor ∧
     blendDst (mats (heap fR) m) = OneMinusSrcAlphaFactor ∧
     depthWrite (mats (heap fR) m) = JsBool false ∧
     depthTest (mats (heap fR) m) = JsBool true) ∧
    (blending (mats (heap fN) m) = blending (mats h m) ∧
     blendEquation (mats (heap fN) m) = blendEquation (mats h m) ∧
     blendSrc (mats (heap fN) m) = blendSrc (mats h m) ∧
     blendDst (mats (heap fN) m) = blendDst (mats h m)).
Proof.
  intros (Haa & Hrr & Hra & Hna & Hnr) f Ho Hm Hw Ht.
  pose proof (gatherMeshes_wboit_has_material scene_ h c) as Hmat. fold f in Hmat.
  pose proof (gatherMeshes_snapshot scene_ h c o m) as Hsnap. fold f in Hsnap.
  specialize (Hsnap Ho Hm).
  destruct (gatherMeshes_groups scene_ h c) as (Hd & _). fold f in Hd.
  assert (He : eligible (heap f) m = true).
  { unfold eligible.
    now rewrite (depth_only_wboitEnabled h (heap f) m Hd),
      (depth_only_transparent h (heap f) m Hd), Hw, Ht. }
  assert (Hm' : m ∈ as_array (material (objs (heap f) o))).
  { destruct Hd as [-> _]. exact Hm. }
  destruct (prepareWboitBlending_configures W toFixed1 (Acummulation W) f o m
              Hmat Ho Hm' He) as (fA & EA & HcA & HwA & HoA & HeA & xA & HxA).
  assert (HmatA : ∀ o', o' ∈ wboitMeshes fA →
                        has_material (material (objs (heap fA) o')) = true).
  { intros o'. rewrite HwA, HoA. apply Hmat. }
  assert (HoA' : o ∈ wboitMeshes fA) by now rewrite HwA.
  assert (HmA : m ∈ as_array (material (objs (heap fA) o))) by now rewrite HoA.
  destruct (prepareWboitBlending_configures W toFixed1 (Revealage W) fA o m
              HmatA HoA' HmA HeA) as (fR & ER & HcR & HwR & HoR & HeR & xR & HxR).
  assert (HmatR : ∀ o', o' ∈ wboitMeshes fR →
                        has_material (material (objs (heap fR) o')) = true).
  { intros o'. rewrite HwR, HoR. apply HmatA. }
  assert (HoR' : o ∈ wboitMeshes fR) by now rewrite HwR.
  assert (HmR : m ∈ as_array (material (objs (heap fR) o))) by now rewrite HoR.
  destruct (prepareWboitBlending_configures W toFixed1 (Normal W) fR o m
              HmatR HoR' HmR HeR) as (fN & EN & _ & _ & _ & _ & xN & HxN).
  exists fA, fR, fN. split; [exact EA|]. split; [exact ER|]. split; [exact EN|].
  rewrite HxA, HxR, HxN, HcR, HcA.
  split; [now apply stage_step_Acummulation|].
  split; [now apply stage_step_Revealage|].
  destruct (stage_step_Normal W toFixed1 (caches f) m xN Hna Hnr) as (-> & -> & -> & ->).
  destruct Hsnap as (Ha & Hb & Hc & Hdst). unfold Map_get.
  now rewrite Ha, Hb, Hc, Hdst.
Qed.

Lemma stage_blend_configuration_witness :
  ∃ fA fN,
    prepareWboitBlending SampleStages Number_toFixed1 (Acummulation SampleStages)
      (gatherMeshes one_mesh_scene (mkFrame wboit_mesh_heap empty_caches [] [] []))
    = Returns fA ∧
    blendSrc (mats (heap fA) 0) = OneFactor ∧ blendDst (mats (heap fA) 0) = OneFactor ∧
    blendSrc (mats (heap fN) 0) = SrcAlphaFactor ∧
    blendDst (mats (heap fN) 0) = OneMinusSrcAlphaFactor.
Proof.
  destruct (stage_blend_configuration SampleStages Number_toFixed1 one_mesh_scene
              wboit_mesh_heap empty_caches 1 0)
    as (fA & fR & fN & EA & _ & _ & (_ & _ & HA1 & HA2 & _) & _ & (_ & _ & HN1 & HN2)).
  - vm_compute. auto.
  - apply list_elem_of_In. vm_compute. auto.
  - apply list_elem_of_In. vm_compute. auto.
  - reflexivity.
  - reflexivity.
  - exists fA, fN. auto.
Defined.

(** *** The frame of a render call *)

Lemma set_all_visible_material v meshes :
  ∀ h o, material (objs (set_all_visible v meshes h) o) = material (objs h o).
Proof.
  unfold set_all_visible.
  induction meshes as [|mesh_ rest IH]; intros h o; cbn [fold_left]; [reflexivity|].
  rewrite IH, objs_upd_obj. case_decide; [subst; reflexivity | reflexivity].
Qed.

Lemma changeVisible_ready a b c f : wboit_ready f → wboit_ready (changeVisible a b c f).
Proof.
  unfold wboit_ready, changeVisible. cbn [with_heap wboitMeshes heap].
  intros H o Ho. rewrite !set_all_visible_material. auto.
Qed.

Lemma prepareWboitBlending_ready W toFixed1 stage f :
  wboit_ready f →
  ∃ f', prepareWboitBlending W toFixed1 stage f = Returns f' ∧ wboit_ready f'.
Proof.
  intros H. rewrite (prepareWboitBlending_returns W toFixed1 stage f H).
  eexists. split; [reflexivity|].
  unfold wboit_ready. cbn [with_heap wboitMeshes heap].
  intros o Ho. rewrite prepare_materials_objs. auto.
Qed.

(** *** The initial clear *)

(** C10. On a pass with a valid scene [render] returns, and the calls it
    makes to the renderer are: when [clearColor] is truthy, binding the write
    buffer, setting the clear colour to [clearColor] with [clearAlpha] and
    clearing the colour buffer; then, whatever [clearColor] is, the fixed
    sequence of the frame, which starts by binding the base target and has
    the first scene render after that.  When [clearColor] is falsy
    ([undefined], [null], the number 0) the three calls are absent and
    [clearAlpha] appears in no call. *)
Theorem initial_clear_iff_clearColor_truthy
    (W : WboitStagesT) (toFixed1 : float → string)
    (pass : WboitPass) (renderer : WebGLRenderer) (writeBuffer : Target) (h : Heap)
    (t : Object3DTree) :
  scene pass = SceneObject t →
  truthy (isScene (objs h (root t))) = true →
  ∃ pass' renderer' h',
    render W toFixed1 pass renderer writeBuffer h = Returns (pass', renderer', h') ∧
    calls renderer' =
      calls renderer
      ++ (if truthy (clearColor pass)
          then [ CallSetRenderTarget writeBuffer;
                 CallSetClearColor (clearColor pass) (clearAlpha pass);
                 CallClearColor ]
          else [])
      ++ frame_calls writeBuffer (r_renderTarget renderer)
           (r_clearColor renderer) (r_clearAlpha renderer).
Proof.
  intros Hscene HisScene. unfold render, scene_valid. rewrite Hscene, HisScene.
  cbv zeta.
  replace (with_heap (upd_obj (root t) (set_overrideMaterial JsNull)
                        (heap (mkFrame h (pass_caches pass) [] [] [])))
             (mkFrame h (pass_caches pass) [] [] []))
    with (mkFrame (upd_obj (root t) (set_overrideMaterial JsNull) h)
            (pass_caches pass) [] [] []) by reflexivity.
  set (h1 := upd_obj (root t) (set_overrideMaterial JsNull) h).
  pose proof (gatherMeshes_wboit_has_material t h1 (pass_caches pass)) as Hready.
  cbv zeta in Hready. fold (wboit_ready (gatherMeshes t (mkFrame h1 (pass_caches pass) [] [] [])))
    in Hready.
  set (f2 := gatherMeshes t (mkFrame h1 (pass_caches pass) [] [] [])) in *.
  apply (changeVisible_ready true false false) in Hready.
  apply (changeVisible_ready false true false) in Hready.
  apply (changeVisible_ready false false true) in Hready.
  match type of Hready with wboit_ready ?f => set (f5 := f) in * end.
  destruct (prepareWboitBlending_ready W toFixed1 (Acummulation W) f5 Hready)
    as (fA & -> & HreadyA). cbn [mbind Completion_bind].
  destruct (prepareWboitBlending_ready W toFixed1 (Revealage W) fA HreadyA)
    as (fR & -> & HreadyR). cbn [mbind Completion_bind].
  destruct (prepareWboitBlending_ready W toFixed1 (Normal W) fR HreadyR)
    as (fN & -> & _). cbn [mbind Completion_bind].
  unfold clear_write_buffer, frame_calls. cbn [clearColor clearAlpha set__oldClearColor].
  destruct (truthy (clearColor pass));
    (eexists _, _, _; split; [reflexivity|]);
    cbn; rewrite <- ?app_assoc; reflexivity.
Qed.

Lemma initial_clear_iff_clearColor_truthy_witness :
  ∃ pass' renderer' h',
    render SampleStages Number_toFixed1
      (a_pass (SceneObject one_mesh_scene) (JsNum 0) (JsNum 1))
      (a_renderer no_gl 1) (External 7) wboit_mesh_heap
    = Returns (pass', renderer', h') ∧
    calls renderer' = frame_calls (External 7) Screen (JsColor 0 0 0) (JsNum 1).
Proof.
  exact (initial_clear_iff_clearColor_truthy SampleStages Number_toFixed1
           (a_pass (SceneObject one_mesh_scene) (JsNum 0) (JsNum 1))
           (a_renderer no_gl 1) (External 7) wboit_mesh_heap one_mesh_scene
           eq_refl eq_refl).
Defined.

(** *** Delivery of the stage *)

Section StageChannel.

Context (W : WboitStagesT) (toFixed1 : float → string).

Lemma stage_step_channel stage c m x :
  renderStage (stage_step W toFixed1 stage c m x) = renderStage (send_stage toFixed1 stage x) ∧
  uniforms (stage_step W toFixed1 stage c m x) = uniforms (send_stage toFixed1 stage x).
Proof.
  unfold stage_step, blend_for_stage.
  destruct (stage =? Acummulation W)%float, (stage =? Revealage W)%float; auto.
Qed.

(** A material whose stage field is falsy and that has no uniform table is
    sent nothing, however often the loop passes over it. *)
Lemma iter_stage_step_no_channel stage c m n x :
  truthy (renderStage x) = false →
  uniforms x = None →
  renderStage (Nat.iter n (stage_step W toFixed1 stage c m) x) = renderStage x ∧
  uniforms (Nat.iter n (stage_step W toFixed1 stage c m) x) = None.
Proof.
  intros Hf Hu. induction n as [|n [IHr IHu]]; [auto|]. rewrite Nat.iter_succ.
  destruct (stage_step_channel stage c m (Nat.iter n (stage_step W toFixed1 stage c m) x))
    as [-> ->].
  unfold send_stage. rewrite IHr, Hf, IHu. auto.
Qed.

(** C8, on the code.  The configurator takes the stage field for present
    only when its current value is truthy.  An eligible material of a WBOIT
    mesh whose [renderStage] field holds a falsy value (the number 0, say)
    and that has no uniform table keeps that value on every stage change,
    although its blend state is reconfigured: the new stage does not reach
    it. *)
Theorem falsy_stage_field_is_never_updated (stage : float) (f : Frame) (o m : nat) :
  wboit_ready f →
  o ∈ wboitMeshes f →
  m ∈ as_array (material (objs (heap f) o)) →
  wboitEnabled (mats (heap f) m) = JsBool true →
  transparent (mats (heap f) m) = JsBool true →
  truthy (renderStage (mats (heap f) m)) = false →
  uniforms (mats (heap f) m) = None →
  ∃ f', prepareWboitBlending W toFixed1 stage f = Returns f' ∧
        renderStage (mats (heap f') m) = renderStage (mats (heap f) m) ∧
        uniforms (mats (heap f') m) = None ∧
        ∃ x, mats (heap f') m = blend_for_stage W stage (caches f) m x.
Proof.
  intros Hready Ho Hm Hw Ht Hfalsy Hnone.
  assert (He : eligible (heap f) m = true) by (unfold eligible; now rewrite Hw, Ht).
  destruct (prepareWboitBlending_configures W toFixed1 stage f o m Hready Ho Hm He)
    as (f' & E & _ & _ & _ & _ & x & Hx).
  exists f'. split; [exact E|].
  rewrite (prepareWboitBlending_returns W toFixed1 stage f Hready) in E.
  injection E as <-. cbn [with_heap heap] in *.
  rewrite prepare_materials_iter, He.
  destruct (iter_stage_step_no_channel stage (caches f) m
              (count_occ Nat.eq_dec
                 (flat_map (fun o0 => as_array (material (objs (heap f) o0))) (wboitMeshes f)) m)
              (mats (heap f) m) Hfalsy Hnone) as [Hr Hu].
  split; [exact Hr|]. split; [exact Hu|].
  rewrite prepare_materials_iter, He in Hx. rewrite Hx. unfold stage_step. eauto.
Qed.

End StageChannel.

Lemma falsy_stage_field_is_never_updated_witness :
  ∃ f', prepareWboitBlending SampleStages Number_toFixed1 (Acummulation SampleStages)
          stage_field_frame = Returns f' ∧
        renderStage (mats (heap f') 0) = JsNum 0 ∧
        uniforms (mats (heap f') 0) = None.
Proof.
  destruct (falsy_stage_field_is_never_updated SampleStages Number_toFixed1
              (Acummulation SampleStages) stage_field_frame 1 0)
    as (f' & E & Hr & Hu & _).
  - exact (gatherMeshes_wboit_has_material one_mesh_scene stage_field_heap empty_caches).
  - apply list_elem_of_In. vm_compute. auto.
  - apply list_elem_of_In. vm_compute. auto.
  - reflexivity.
  - reflexivity.
  - reflexivity.
  - reflexivity.
  - exists f'. auto.
Defined.

(** *** Restoration of the depth fields *)

(** C1, on the code.  [resetVisible] writes the cached [depthTest] into
    [depthWrite] and the cached [depthWrite] into [depthTest].  A visible
    mesh whose material has depth fields [t] and [w] comes out of one
    [render] with [depthTest = w] and [depthWrite = t] (its visibility is
    restored); a second [render] exchanges them back.  With [depthTest]
    true and [depthWrite] false the material is left not testing depth and
    writing it. *)
Theorem render_exchanges_depth_fields (t w : JsVal) :
  let pass := a_pass (SceneObject one_mesh_scene) JsUndefined (JsNum 0) in
  let renderer := a_renderer no_gl 1 in
  depthTest (mats (depth_heap t w) 0) = t ∧
  depthWrite (mats (depth_heap t w) 0) = w ∧
  depth_and_visibility
    (render_times SampleStages Number_toFixed1 1 pass renderer Screen (depth_heap t w))
  = Some (w, t, JsBool true) ∧
  depth_and_visibility
    (render_times SampleStages Number_toFixed1 2 pass renderer Screen (depth_heap t w))
  = Some (t, w, JsBool true) ∧
  depth_and_visibility
    (render_times SampleStages Number_toFixed1 1 pass renderer Screen
       (depth_heap (JsBool true) (JsBool false)))
  = Some (JsBool false, JsBool true, JsBool true).
Proof.
  cbv zeta. repeat split; vm_compute; reflexivity.
Qed.

(** *** What the configurator does deliver *)

Section StageDelivery.

Context (W : WboitStagesT) (toFixed1 : float → string).

(** A truthy stage field is set to the stage. *)
Lemma iter_stage_step_field stage c m n x :
  truthy (renderStage x) = true →
  0 < n →
  renderStage (Nat.iter n (stage_step W toFixed1 stage c m) x) = JsNum stage.
Proof.
  intros Hx Hn. destruct n as [|n]; [lia|]. clear Hn.
  induction n as [|n IH]; rewrite Nat.iter_succ.
  - cbn [Nat.iter nat_rect].
    rewrite (proj1 (stage_step_channel W toFixed1 stage c m x)).
    unfold send_stage. now rewrite Hx.
  - rewrite (proj1 (stage_step_channel W toFixed1 stage c m _)).
    unfold send_stage. rewrite IH.
    destruct (truthy (JsNum stage)); [reflexivity|].
    destruct (uniforms _) as [u|]; [|exact IH].
    case_decide; exact IH.
Qed.

(** With a falsy stage field, a [renderStage] uniform is set to the stage
    written with one fraction digit, and the field is left alone. *)
Lemma iter_stage_step_uniform stage c m n x u :
  truthy (renderStage x) = false →
  uniforms x = Some u →
  is_Some (u !! "renderStage") →
  0 < n →
  ∃ u', uniforms (Nat.iter n (stage_step W toFixed1 stage c m) x) = Some u' ∧
        u' !! "renderStage" = Some (JsStr (toFixed1 stage)) ∧
        renderStage (Nat.iter n (stage_step W toFixed1 stage c m) x) = renderStage x.
Proof.
  intros Hx Hu Hentry Hn. destruct n as [|n]; [lia|]. clear Hn.
  induction n as [|n (u' & IHu & IHe & IHr)]; rewrite Nat.iter_succ.
  - cbn [Nat.iter nat_rect].
    destruct (stage_step_channel W toFixed1 stage c m x) as [-> ->].
    unfold send_stage. rewrite Hx, Hu. rewrite decide_True by exact Hentry.
    eexists. cbn. split; [reflexivity|]. split; [apply lookup_insert_eq | reflexivity].
  - destruct (stage_step_channel W toFixed1 stage c m
                (Nat.iter (S n) (stage_step W toFixed1 stage c m) x)) as [-> ->].
    unfold send_stage. rewrite IHr, Hx, IHu.
    rewrite decide_True by (rewrite IHe; eauto).
    eexists. cbn. split; [reflexivity|]. split; [apply lookup_insert_eq | exact IHr].
Qed.

(** X6. How a stage change ends for a material, on a frame whose WBOIT
    meshes all have a material: a material failing the [=== true]
    double-check is left exactly as it was; an eligible material of a WBOIT
    mesh whose stage field is truthy has the field set to the stage; one
    whose field is falsy and that has a [renderStage] uniform has the
    uniform set to the stage written with one fraction digit. *)
Lemma prepareWboitBlending_delivery (stage : float) (f : Frame) (m : nat) :
  wboit_ready f →
  ∃ f', prepareWboitBlending W toFixed1 stage f = Returns f' ∧
    (eligible (heap f) m = false → mats (heap f') m = mats (heap f) m) ∧
    (∀ o, o ∈ wboitMeshes f → m ∈ as_array (material (objs (heap f) o)) →
          eligible (heap f) m = true →
          (truthy (renderStage (mats (heap f) m)) = true →
           renderStage (mats (heap f') m) = JsNum stage) ∧
          (∀ u, truthy (renderStage (mats (heap f) m)) = false →
                uniforms (mats (heap f) m) = Some u →
                is_Some (u !! "renderStage") →
                ∃ u', uniforms (mats (heap f') m) = Some u' ∧
                      u' !! "renderStage" = Some (JsStr (toFixed1 stage)))).
Proof.
  intros Hready. rewrite (prepareWboitBlending_returns W toFixed1 stage f Hready).
  eexists. split; [reflexivity|]. cbn [with_heap heap].
  set (l := flat_map _ _). split.
  - intros He. rewrite prepare_materials_iter, He. reflexivity.
  - intros o Ho Hm He. rewrite prepare_materials_iter, He.
    assert (Hpos : 0 < count_occ Nat.eq_dec l m).
    { apply count_occ_In. subst l. apply in_flat_map. exists o.
      split; now apply list_elem_of_In. }
    split.
    + intros Ht. now apply iter_stage_step_field.
    + intros u Hf Hu Hentry.
      destruct (iter_stage_step_uniform stage (caches f) m _ _ u Hf Hu Hentry Hpos)
        as (u' & H1 & H2 & _).
      eauto.
Qed.

End StageDelivery.

(** *** Restoration of visibility and blend state *)

Lemma Map_set_elem k v l k' v' :
  (k', v') ∈ Map_set k v l → (k', v') = (k, v) ∨ (k', v') ∈ l.
Proof.
  induction l as [|[k0 v0] l IH]; cbn [Map_set].
  - intros H. apply list_elem_of_singleton in H. now left.
  - destruct (decide (k = k0)) as [_|_].
    + intros H. apply elem_of_cons in H as [H|H]; [now left|].
      right. apply elem_of_cons. now right.
    + intros H. apply elem_of_cons in H as [H|H].
      * right. apply elem_of_cons. now left.
      * destruct (IH H) as [?|?]; [now left|]. right. apply elem_of_cons. now right.
Qed.

Lemma Map_set_key k v l : k ∈ (Map_set k v l).*1.
Proof.
  induction l as [|[k0 v0] l IH]; cbn [Map_set].
  - cbn. apply elem_of_cons. now left.
  - destruct (decide (k = k0)) as [_|_]; cbn; apply elem_of_cons; [now left | now right].
Qed.

Lemma Map_set_keys k v l k' : k' ∈ l.*1 → k' ∈ (Map_set k v l).*1.
Proof.
  induction l as [|[k0 v0] l IH]; cbn [Map_set]; [intros H; now apply elem_of_nil in H|].
  destruct (decide (k = k0)) as [->|_]; cbn; intros H;
    apply elem_of_cons in H as [H|H]; apply elem_of_cons.
  - now left.
  - now right.
  - now left.
  - right. now apply IH.
Qed.

Lemma snapshot_blend_visibility h materials :
  ∀ c, _visibilityCache (snapshot_blend h materials c) = _visibilityCache c.
Proof.
  induction materials as [|mi rest IH]; intros c; cbn [snapshot_blend]; [reflexivity|].
  now rewrite IH.
Qed.

Lemma gather_visit_visibility h0 o f :
  depth_only h0 (heap f) → visibility_cached h0 f → visibility_cached h0 (gather_visit o f).
Proof.
  intros Hd [Hval Hkey]. rewrite gather_visit_eq.
  pose proof (gather_flags_other_caches (heap f) (as_array (material (objs (heap f) o)))
                (JsBool true) (JsBool true) (caches f)) as (Hv & _).
  cbv zeta in Hv. pose proof Hd as [Ho _].
  destruct (spec_group (heap f) o) as [g|]; [|split; assumption].
  assert (Hcache : _visibilityCache (caches (visit_result g o f))
                   = Map_set o (visible (objs h0 o)) (_visibilityCache (caches f))).
  { destruct g; unfold visit_result; cbn [caches cache_visible _visibilityCache];
      rewrite ?snapshot_blend_visibility, Hv, Ho; reflexivity. }
  split.
  - intros k v. rewrite Hcache. intros H.
    apply Map_set_elem in H as [[= -> ->]|H]; [reflexivity | auto].
  - intros o'. rewrite Hcache. intros H.
    assert (Hcases : o' = o ∨ o' ∈ opaqueMeshes f ∨ o' ∈ transparentMeshes f
                     ∨ o' ∈ wboitMeshes f).
    { destruct g; unfold visit_result in H;
        cbn [opaqueMeshes transparentMeshes wboitMeshes] in H;
        rewrite ?elem_of_app, ?list_elem_of_singleton in H; tauto. }
    destruct Hcases as [->|Hold]; [apply Map_set_key | apply Map_set_keys; auto].
Qed.

Lemma gather_fold_visibility h0 l :
  ∀ f, depth_only h0 (heap f) → visibility_cached h0 f →
       visibility_cached h0 (fold_left (fun s o => gather_visit o s) l f).
Proof.
  induction l as [|o l IH]; intros f Hd Hv; cbn [fold_left]; [exact Hv|].
  destruct (gather_visit_groups o f) as (Hd' & _).
  apply IH.
  - eapply depth_only_trans; eassumption.
  - now apply gather_visit_visibility.
Qed.

Lemma gatherMeshes_visibility scene_ h c :
  _visibilityCache c = [] →
  visibility_cached h (gatherMeshes scene_ (mkFrame h c [] [] [])).
Proof.
  intros Hc. unfold gatherMeshes. rewrite traverse_preorder.
  apply gather_fold_visibility; [apply depth_only_refl|].
  split; cbn [caches opaqueMeshes transparentMeshes wboitMeshes].
  - rewrite Hc. intros k v H. now apply elem_of_nil in H.
  - intros o [H|[H|H]]; now apply elem_of_nil in H.
Qed.

Lemma set_all_visible_mats v meshes : ∀ h, mats (set_all_visible v meshes h) = mats h.
Proof.
  unfold set_all_visible.
  induction meshes as [|mesh_ rest IH]; intros h; cbn [fold_left]; [reflexivity|].
  now rewrite IH.
Qed.

Lemma set_all_visible_visibility_only v meshes :
  ∀ h, visibility_only h (set_all_visible v meshes h).
Proof.
  unfold set_all_visible, visibility_only.
  induction meshes as [|mesh_ rest IH]; intros h o; cbn [fold_left]; [reflexivity|].
  rewrite IH, objs_upd_obj. case_decide; [subst; reflexivity | reflexivity].
Qed.

Lemma set_all_visible_other v meshes :
  ∀ h o, o ∉ meshes → objs (set_all_visible v meshes h) o = objs h o.
Proof.
  unfold set_all_visible.
  induction meshes as [|mesh_ rest IH]; intros h o Ho; cbn [fold_left]; [reflexivity|].
  apply not_elem_of_cons in Ho as [Hne Ho].
  rewrite (IH _ _ Ho), objs_upd_obj. now rewrite decide_False by congruence.
Qed.

Lemma reset_depth_objs c materials : ∀ h, objs (reset_depth c materials h) = objs h.
Proof.
  induction materials as [|mi rest IH]; intros h; cbn [reset_depth]; [reflexivity|].
  now rewrite IH.
Qed.

Lemma reset_depth_forget_depth c materials :
  ∀ h m, forget_depth (mats (reset_depth c materials h) m) = forget_depth (mats h m).
Proof.
  induction materials as [|mi rest IH]; intros h m; cbn [reset_depth]; [reflexivity|].
  rewrite IH. heap_cases.
Qed.

Lemma reset_entry_objs c h key value o :
  objs (reset_entry c h (key, value)) o
  = if decide (key = o) then set_visible value (objs h key) else objs h o.
Proof.
  unfold reset_entry. destruct (has_material _);
    rewrite ?reset_depth_objs; apply objs_upd_obj.
Qed.

Lemma reset_entry_forget_depth c h entry m :
  forget_depth (mats (reset_entry c h entry) m) = forget_depth (mats h m).
Proof.
  destruct entry as [key value]. unfold reset_entry.
  destruct (has_material _); rewrite ?reset_depth_forget_depth; reflexivity.
Qed.

Lemma reset_fold_forget_depth c l :
  ∀ h m, forget_depth (mats (fold_left (reset_entry c) l h) m) = forget_depth (mats h m).
Proof.
  induction l as [|entry l IH]; intros h m; cbn [fold_left]; [reflexivity|].
  now rewrite IH, reset_entry_forget_depth.
Qed.

Lemma reset_fold_visibility_only c l :
  ∀ h, visibility_only h (fold_left (reset_entry c) l h).
Proof.
  unfold visibility_only.
  induction l as [|[key value] l IH]; intros h o; cbn [fold_left]; [reflexivity|].
  rewrite IH, reset_entry_objs. case_decide; [subst; reflexivity | reflexivity].
Qed.

(** After the loop of [resetVisible] an object with an entry has the cached
    visibility, any other object the visibility it had. *)
Lemma reset_fold_visible c (V : nat → JsVal) l :
  (∀ k v, (k, v) ∈ l → v = V k) →
  ∀ h o,
    visible (objs (fold_left (reset_entry c) l h) o)
    = if decide (o ∈ l.*1) then V o else visible (objs h o).
Proof.
  induction l as [|[key value] l IH]; intros HV h o; cbn [fold_left].
  - now rewrite decide_False by apply not_elem_of_nil.
  - rewrite IH by (intros k v H; apply HV, elem_of_cons; now right).
    assert (Hval : value = V key) by (apply HV, elem_of_cons; now left).
    rewrite reset_entry_objs. cbn [fmap list_fmap fst].
    destruct (decide (o ∈ l.*1)) as [Hin|Hout].
    + rewrite decide_True by (apply elem_of_cons; now right). reflexivity.
    + destruct (decide (key = o)) as [->|Hne].
      * rewrite decide_True by (apply elem_of_cons; now left). now rewrite Hval.
      * rewrite decide_False; [reflexivity|].
        intros H. apply elem_of_cons in H as [H|H]; [congruence | contradiction].
Qed.

Section Restoration.

Context (W : WboitStagesT) (toFixed1 : float → string).

Lemma prepareWboitBlending_prepared stage f :
  wboit_ready f → prepareWboitBlending W toFixed1 stage f = Returns (prepared W toFixed1 stage f).
Proof. apply prepareWboitBlending_returns. Qed.

Lemma prepared_objs stage f : objs (heap (prepared W toFixed1 stage f)) = objs (heap f).
Proof. apply prepare_materials_objs. Qed.

Lemma prepared_ready stage f : wboit_ready f → wboit_ready (prepared W toFixed1 stage f).
Proof.
  unfold wboit_ready. intros H o Ho. rewrite prepared_objs. now apply H.
Qed.

Lemma prepared_wboit_materials stage f :
  wboit_materials (prepared W toFixed1 stage f) = wboit_materials f.
Proof. unfold wboit_materials. now rewrite prepared_objs. Qed.

Lemma prepared_touched stage f m : touched (prepared W toFixed1 stage f) m = touched f m.
Proof.
  unfold touched. rewrite prepared_wboit_materials. f_equal.
  apply prepare_materials_eligible.
Qed.

Lemma prepared_mats stage f m :
  if touched f m
  then ∃ x, mats (heap (prepared W toFixed1 stage f)) m = stage_step W toFixed1 stage (caches f) m x
  else mats (heap (prepared W toFixed1 stage f)) m = mats (heap f) m.
Proof.
  unfold touched, prepared. cbn [with_heap heap]. rewrite prepare_materials_iter.
  destruct (eligible (heap f) m); cbn [andb]; [|reflexivity].
  destruct (count_occ Nat.eq_dec (wboit_materials f) m) as [|n]; [reflexivity|].
  change (0 <? S n) with true. cbv iota. rewrite Nat.iter_succ. eauto.
Qed.

Lemma changeVisible_mats a b c f : mats (heap (changeVisible a b c f)) = mats (heap f).
Proof. unfold changeVisible. cbn. now rewrite !set_all_visible_mats. Qed.

Lemma changeVisible_visibility_only a b c f :
  visibility_only (heap f) (heap (changeVisible a b c f)).
Proof.
  unfold changeVisible, visibility_only. cbn. intros o.
  now rewrite !set_all_visible_visibility_only.
Qed.

Lemma changeVisible_other a b c f o :
  o ∉ opaqueMeshes f → o ∉ transparentMeshes f → o ∉ wboitMeshes f →
  objs (heap (changeVisible a b c f)) o = objs (heap f) o.
Proof.
  intros H1 H2 H3. unfold changeVisible. cbn.
  now rewrite !set_all_visible_other.
Qed.

Lemma blend_of_forget_depth x y :
  forget_depth x = forget_depth y →
  blending x = blending y ∧ blendEquation x = blendEquation y ∧
  blendSrc x = blendSrc y ∧ blendDst x = blendDst y.
Proof.
  intros H. repeat split.
  - exact (f_equal blending H).
  - exact (f_equal blendEquation H).
  - exact (f_equal blendSrc H).
  - exact (f_equal blendDst H).
Qed.

(** The blend fields of every material come out of the frame as they went
    in. *)
Lemma frame_at_end_blend scene_ h c m :
  (Normal W =? Acummulation W)%float = false →
  (Normal W =? Revealage W)%float = false →
  let f := frame_at_end W toFixed1 (gatherMeshes scene_ (mkFrame h c [] [] [])) in
  blending (mats (heap f) m) = blending (mats h m) ∧
  blendEquation (mats (heap f) m) = blendEquation (mats h m) ∧
  blendSrc (mats (heap f) m) = blendSrc (mats h m) ∧
  blendDst (mats (heap f) m) = blendDst (mats h m).
Proof.
  intros Hna Hnr f. subst f. unfold frame_at_end.
  set (f2 := gatherMeshes scene_ (mkFrame h c [] [] [])).
  set (f5 := changeVisible false false true _).
  set (fA := prepared W toFixed1 (Acummulation W) f5).
  set (fR := prepared W toFixed1 (Revealage W) fA).
  set (fN := prepared W toFixed1 (Normal W) fR).
  destruct (gatherMeshes_groups scene_ h c) as (Hd & _). fold f2 in Hd.
  assert (Hreset : ∀ x, forget_depth (mats (heap (resetVisible fN)) m) = forget_depth x →
                        forget_depth (mats (heap fN) m) = forget_depth x).
  { intros x <-. unfold resetVisible. cbn [with_heap heap].
    now rewrite reset_fold_forget_depth. }
  assert (H5 : mats (heap f5) m = mats (heap f2) m).
  { subst f5. now rewrite !changeVisible_mats. }
  assert (Hblend : blending (mats (heap fN) m) = blending (mats h m) ∧
                   blendEquation (mats (heap fN) m) = blendEquation (mats h m) ∧
                   blendSrc (mats (heap fN) m) = blendSrc (mats h m) ∧
                   blendDst (mats (heap fN) m) = blendDst (mats h m)).
  { pose proof (prepared_mats (Normal W) fR m) as HN. fold fN in HN.
    pose proof (prepared_mats (Revealage W) fA m) as HR. fold fR in HR.
    pose proof (prepared_mats (Acummulation W) f5 m) as HA. fold fA in HA.
    assert (HtR : touched fR m = touched f5 m).
    { subst fR fA. now rewrite !prepared_touched. }
    assert (HtA : touched fA m = touched f5 m).
    { subst fA. now rewrite prepared_touched. }
    rewrite HtR in HN. rewrite HtA in HR.
    destruct (touched f5 m) eqn:Ht.
    - destruct HN as [x ->].
      destruct (stage_step_Normal W toFixed1 (caches fR) m x Hna Hnr) as (-> & -> & -> & ->).
      change (caches fR) with (caches f2).
      unfold touched in Ht. apply andb_true_iff in Ht as [_ Hcount].
      apply Nat.ltb_lt, count_occ_In, in_flat_map in Hcount as (o & Ho & Hm).
      apply list_elem_of_In in Ho, Hm.
      change (wboitMeshes f5) with (wboitMeshes f2) in Ho.
      assert (Hslot : material (objs (heap f5) o) = material (objs h o)).
      { subst f5. unfold changeVisible. cbn [with_heap heap].
        rewrite !set_all_visible_material. now destruct Hd as [-> _]. }
      rewrite Hslot in Hm.
      destruct (gatherMeshes_snapshot scene_ h c o m Ho Hm) as (Ha & Hb & Hc & Hdst).
      fold f2 in Ha, Hb, Hc, Hdst. unfold Map_get.
      now rewrite Ha, Hb, Hc, Hdst.
    - rewrite HN, HR, HA, H5. now apply depth_only_blend. }
  destruct Hblend as (<- & <- & <- & <-).
  apply blend_of_forget_depth. unfold resetVisible. cbn [with_heap heap].
  apply reset_fold_forget_depth.
Qed.

End Restoration.

Lemma object_eq_by_parts (x y : Object3D) :
  forget_visible x = forget_visible y → visible x = visible y → x = y.
Proof. destruct x, y. cbn. intros [= -> -> ->] ->. reflexivity. Qed.

Section RestorationOfObjects.

Context (W : WboitStagesT) (toFixed1 : float → string).

(** Every object comes out of the frame as it went in, its visibility
    included, when the visibility cache was empty at the start. *)
Lemma frame_at_end_objs scene_ h c o :
  _visibilityCache c = [] →
  objs (heap (frame_at_end W toFixed1 (gatherMeshes scene_ (mkFrame h c [] [] [])))) o
  = objs h o.
Proof.
  intros Hc. unfold frame_at_end.
  set (f2 := gatherMeshes scene_ (mkFrame h c [] [] [])).
  set (f3 := changeVisible true false false f2).
  set (f4 := changeVisible false true false f3).
  set (f5 := changeVisible false false true f4).
  set (fN := prepared W toFixed1 (Normal W) _).
  destruct (gatherMeshes_groups scene_ h c) as ([Hobjs _] & _). fold f2 in Hobjs.
  destruct (gatherMeshes_visibility scene_ h c Hc) as [Hval Hkey]. fold f2 in Hval, Hkey.
  assert (HN : objs (heap fN) = objs (heap f5)).
  { subst fN. now rewrite !prepared_objs. }
  apply object_eq_by_parts.
  - unfold resetVisible. cbn [with_heap heap].
    rewrite reset_fold_visibility_only, HN. subst f5 f4 f3.
    now rewrite !changeVisible_visibility_only, Hobjs.
  - unfold resetVisible. cbn [with_heap heap].
    change (caches fN) with (caches f2).
    rewrite (reset_fold_visible (caches f2) (fun k => visible (objs h k)) _ Hval).
    case_decide as Hin; [reflexivity|].
    rewrite HN.
    assert (Hout : (o ∉ opaqueMeshes f2) ∧ (o ∉ transparentMeshes f2) ∧ (o ∉ wboitMeshes f2)).
    { split_and!; intros H; apply Hin, Hkey; tauto. }
    destruct Hout as (H1 & H2 & H3).
    subst f5 f4 f3. rewrite !changeVisible_other by assumption. now rewrite Hobjs.
Qed.

(** One [render] on a pass whose visibility cache is empty, as the
    constructor and every earlier [render] leave it: if it returns, every
    material has the blend fields it had, every object is what it was
    (visibility and override material included), and the cache is empty
    again. *)
Lemma render_restores_blend_and_objects pass renderer writeBuffer h pass' renderer' h' :
  (Normal W =? Acummulation W)%float = false →
  (Normal W =? Revealage W)%float = false →
  _visibilityCache (pass_caches pass) = [] →
  render W toFixed1 pass renderer writeBuffer h = Returns (pass', renderer', h') →
  (∀ m, blending (mats h' m) = blending (mats h m) ∧
        blendEquation (mats h' m) = blendEquation (mats h m) ∧
        blendSrc (mats h' m) = blendSrc (mats h m) ∧
        blendDst (mats h' m) = blendDst (mats h m)) ∧
  (∀ o, objs h' o = objs h o) ∧
  _visibilityCache (pass_caches pass') = [].
Proof.
  intros Hna Hnr Hc. unfold render.
  destruct (scene_valid (scene pass) h) as [t|].
  2: { intros [= <- <- <-]. auto. }
  cbv zeta.
  replace (with_heap (upd_obj (root t) (set_overrideMaterial JsNull)
                        (heap (mkFrame h (pass_caches pass) [] [] [])))
             (mkFrame h (pass_caches pass) [] [] []))
    with (mkFrame (upd_obj (root t) (set_overrideMaterial JsNull) h)
            (pass_caches pass) [] [] []) by reflexivity.
  set (h1 := upd_obj (root t) (set_overrideMaterial JsNull) h).
  pose proof (gatherMeshes_wboit_has_material t h1 (pass_caches pass)) as Hready.
  cbv zeta in Hready.
  fold (wboit_ready (gatherMeshes t (mkFrame h1 (pass_caches pass) [] [] []))) in Hready.
  set (f2 := gatherMeshes t (mkFrame h1 (pass_caches pass) [] [] [])) in *.
  apply (changeVisible_ready true false false) in Hready.
  apply (changeVisible_ready false true false) in Hready.
  apply (changeVisible_ready false false true) in Hready.
  rewrite (prepareWboitBlending_prepared W toFixed1 _ _ Hready). cbn [mbind Completion_bind].
  apply (prepared_ready W toFixed1 (Acummulation W)) in Hready.
  rewrite (prepareWboitBlending_prepared W toFixed1 _ _ Hready). cbn [mbind Completion_bind].
  apply (prepared_ready W toFixed1 (Revealage W)) in Hready.
  rewrite (prepareWboitBlending_prepared W toFixed1 _ _ Hready). cbn [mbind Completion_bind].
  fold (frame_at_end W toFixed1 f2).
  intros [= <- _ <-]. cbn [with_heap heap]. split; [|split; [|reflexivity]].
  - intros m. apply (frame_at_end_blend W toFixed1 t h1 (pass_caches pass) m Hna Hnr).
  - intros o. rewrite objs_upd_obj. subst f2.
    rewrite !(frame_at_end_objs t h1 (pass_caches pass) _ Hc).
    subst h1. rewrite !objs_upd_obj.
    destruct (decide (root t = o)) as [<-|Ho]; [|reflexivity].
    rewrite decide_True by reflexivity. now destruct (objs h (root t)).
Qed.

(** X5. Any number of [render] calls in a row, on a pass whose visibility
    cache is empty at the start (as the constructor leaves it), restores what
    the frames change apart from the depth fields: if the calls return,
    every material has the [blending], [blendEquation], [blendSrc] and
    [blendDst] it had before the first call, and every object is what it
    was, its [visible] flag and the scene's [overrideMaterial] included.
    (The normal stage must differ from the other two, or the configurator
    would not restore.) *)
Lemma render_times_restores_blend_and_objects n :
  (Normal W =? Acummulation W)%float = false →
  (Normal W =? Revealage W)%float = false →
  ∀ pass renderer writeBuffer h pass' renderer' h',
    _visibilityCache (pass_caches pass) = [] →
    render_times W toFixed1 n pass renderer writeBuffer h = Returns (pass', renderer', h') →
    (∀ m, blending (mats h' m) = blending (mats h m) ∧
          blendEquation (mats h' m) = blendEquation (mats h m) ∧
          blendSrc (mats h' m) = blendSrc (mats h m) ∧
          blendDst (mats h' m) = blendDst (mats h m)) ∧
    (∀ o, objs h' o = objs h o).
Proof.
  intros Hna Hnr. induction n as [|n IH]; intros pass renderer writeBuffer h pass' renderer' h' Hc;
    cbn [render_times].
  - intros [= <- <- <-]. auto.
  - destruct (render W toFixed1 pass renderer writeBuffer h) as [[[p1 r1] h1]|e] eqn:E;
      cbn [mbind Completion_bind]; [|discriminate].
    destruct (render_restores_blend_and_objects _ _ _ _ _ _ _ Hna Hnr Hc E) as (Hb & Ho & Hc1).
    intros Hrest. destruct (IH _ _ _ _ _ _ _ Hc1 Hrest) as [Hb' Ho'].
    split.
    + intros m. destruct (Hb m) as (<- & <- & <- & <-). apply Hb'.
    + intros o. now rewrite Ho', Ho.
Qed.

End RestorationOfObjects.

(** *** The result of a frame *)

Section FrameResult.

Context (W : WboitStagesT) (toFixed1 : float → string).

(** On a valid scene [render] returns, and its three results can be written
    down: the heap is the frame's end heap with the scene's override material
    put back; the renderer has its flags, bound target, clear colour and
    alpha set back from the saved values; the pass has the caches empty, the
    saved clear colour, and the gamma and texture uniforms of its sub-passes
    set. *)
Lemma render_on_valid_scene pass renderer writeBuffer h t :
  scene_valid (scene pass) h = Some t →
  let h1 := upd_obj (root t) (set_overrideMaterial JsNull) h in
  let f := frame_at_end W toFixed1 (gatherMeshes t (mkFrame h1 (pass_caches pass) [] [] [])) in
  ∃ made,
    made =
      calls renderer
      ++ (if truthy (clearColor pass)
          then [ CallSetRenderTarget writeBuffer;
                 CallSetClearColor (clearColor pass) (clearAlpha pass);
                 CallClearColor ]
          else [])
      ++ frame_calls writeBuffer (r_renderTarget renderer)
           (r_clearColor renderer) (r_clearAlpha renderer) ∧
    render W toFixed1 pass renderer writeBuffer h =
    Returns
      (mkWboitPass (scene pass) (camera pass) (clearColor pass) (clearAlpha pass)
         (clear pass) (clearDepth pass) (needsSwap pass) (r_clearColor renderer)
         empty_caches
         (set_uniform "uGamma" (gamma renderer) (opaquePass pass))
         (set_uniform "uGamma" (gamma renderer) (transparentPass pass))
         (copyPass pass)
         (set_uniform "tRevealage" (JsTexture BaseTarget)
            (set_uniform "tAccumulation" (JsTexture AccumulationTarget)
               (set_uniform "uGamma" (gamma renderer) (compositePass pass))))
         (baseTarget pass) (accumulationTarget pass),
       mkRenderer (autoClear renderer)
         (Color_set (r_clearColor renderer) _clearColorOne)
         (if is_undefined (r_clearAlpha renderer) then JsNum 1 else r_clearAlpha renderer)
         (r_renderTarget renderer) (outputColorSpace renderer)
         (r_width renderer) (r_height renderer) (r_pixelRatio renderer) (r_gl renderer)
         made,
       upd_obj (root t) (set_overrideMaterial (overrideMaterial (objs h (root t)))) (heap f)).
Proof.
  intros Hvalid h1 f. unfold render. rewrite Hvalid. cbv zeta.
  replace (with_heap (upd_obj (root t) (set_overrideMaterial JsNull)
                        (heap (mkFrame h (pass_caches pass) [] [] [])))
             (mkFrame h (pass_caches pass) [] [] []))
    with (mkFrame h1 (pass_caches pass) [] [] []) by reflexivity.
  pose proof (gatherMeshes_wboit_has_material t h1 (pass_caches pass)) as Hready.
  cbv zeta in Hready.
  fold (wboit_ready (gatherMeshes t (mkFrame h1 (pass_caches pass) [] [] []))) in Hready.
  apply (changeVisible_ready true false false) in Hready.
  apply (changeVisible_ready false true false) in Hready.
  apply (changeVisible_ready false false true) in Hready.
  rewrite (prepareWboitBlending_prepared W toFixed1 _ _ Hready). cbn [mbind Completion_bind].
  apply (prepared_ready W toFixed1 (Acummulation W)) in Hready.
  rewrite (prepareWboitBlending_prepared W toFixed1 _ _ Hready). cbn [mbind Completion_bind].
  apply (prepared_ready W toFixed1 (Revealage W)) in Hready.
  rewrite (prepareWboitBlending_prepared W toFixed1 _ _ Hready). cbn [mbind Completion_bind].
  fold (frame_at_end W toFixed1 (gatherMeshes t (mkFrame h1 (pass_caches pass) [] [] []))).
  fold f. unfold clear_write_buffer, frame_calls.
  cbn [clearColor clearAlpha set__oldClearColor].
  destruct (truthy (clearColor pass));
    (eexists; split; [|reflexivity]); cbn; rewrite <- ?app_assoc; reflexivity.
Qed.

End FrameResult.

(** *** A frame as its caller sees it *)


(** X2. Whether or not the scene is valid, a returning [render] hands the
    renderer back as it found it, apart from the calls made: [autoClear],
    the bound render target, the clear colour and the clear alpha have their
    values from before the call, and so have the output colour space, the
    size, the pixel ratio and the context.  (The renderer's clear colour is a
    [Color] and its clear alpha is not [undefined], as on any three.js
    renderer.) *)
Theorem render_restores_renderer
    (W : WboitStagesT) (toFixed1 : float → string)
    (pass pass' : WboitPass) (renderer renderer' : WebGLRenderer)
    (writeBuffer : Target) (h h' : Heap) :
  (∃ r g b, r_clearColor renderer = JsColor r g b) →
  is_undefined (r_clearAlpha renderer) = false →
  render W toFixed1 pass renderer writeBuffer h = Returns (pass', renderer', h') →
  autoClear renderer' = autoClear renderer ∧
  r_renderTarget renderer' = r_renderTarget renderer ∧
  r_clearColor renderer' = r_clearColor renderer ∧
  r_clearAlpha renderer' = r_clearAlpha renderer ∧
  outputColorSpace renderer' = outputColorSpace renderer ∧
  r_width renderer' = r_width renderer ∧ r_height renderer' = r_height renderer ∧
  r_pixelRatio renderer' = r_pixelRatio renderer ∧ r_gl renderer' = r_gl renderer.
Proof.
  intros (r & g & b & Hcolor) Halpha.
  destruct (scene_valid (scene pass) h) as [t|] eqn:Hvalid.
  - destruct (render_on_valid_scene W toFixed1 pass renderer writeBuffer h t Hvalid)
      as (made & _ & ->).
    intros [= _ <- _]. cbn. rewrite Hcolor, Halpha. cbn. repeat split; reflexivity.
  - unfold render. rewrite Hvalid. intros [= _ <- _]. repeat split; reflexivity.
Qed.

Lemma render_restores_renderer_witness :
  match render SampleStages Number_toFixed1
          (a_pass (SceneObject one_mesh_scene) (JsNum 16711680) (JsNum 1))
          (a_renderer no_gl 1) (External 7) wboit_mesh_heap with
  | Returns (_, renderer', _) =>
      r_clearColor renderer' = JsColor 0 0 0 ∧ r_renderTarget renderer' = Screen
  | Throws _ => False
  end.
Proof.
  destruct (render SampleStages Number_toFixed1
              (a_pass (SceneObject one_mesh_scene) (JsNum 16711680) (JsNum 1))
              (a_renderer no_gl 1) (External 7) wboit_mesh_heap)
    as [[[pass' renderer'] h']|e] eqn:E; [|vm_compute in E; discriminate E].
  assert (Hcolor : ∃ r g b, r_clearColor (a_renderer no_gl 1) = JsColor r g b)
    by (eexists _, _, _; reflexivity).
  destruct (render_restores_renderer SampleStages Number_toFixed1
              (a_pass (SceneObject one_mesh_scene) (JsNum 16711680) (JsNum 1)) pass'
              (a_renderer no_gl 1) renderer' (External 7) wboit_mesh_heap h'
              Hcolor eq_refl E) as (_ & Ht & Hc & _).
  split; [exact Hc | exact Ht].
Defined.

(** X3. After a frame on a valid scene the gamma uniform of the opaque-copy,
    transparent-copy and compositor sub-passes is 1 when the renderer's
    output colour space is sRGB and 0 otherwise, and the compositor reads the
    accumulation target's texture as [tAccumulation] and the base target's
    texture as [tRevealage]; the blend state of the sub-passes is not
    touched. *)
Theorem render_sets_sub_pass_uniforms
    (W : WboitStagesT) (toFixed1 : float → string)
    (pass pass' : WboitPass) (renderer renderer' : WebGLRenderer)
    (writeBuffer : Target) (h h' : Heap) (t : Object3DTree) :
  scene pass = SceneObject t →
  truthy (isScene (objs h (root t))) = true →
  is_Some (uniforms (opaquePass pass)) →
  is_Some (uniforms (transparentPass pass)) →
  is_Some (uniforms (compositePass pass)) →
  render W toFixed1 pass renderer writeBuffer h = Returns (pass', renderer', h') →
  let uGamma :=
    if is_string SRGBColorSpace (outputColorSpace renderer) then JsNum 1 else JsNum 0 in
  uniform_of "uGamma" (opaquePass pass') = Some uGamma ∧
  uniform_of "uGamma" (transparentPass pass') = Some uGamma ∧
  uniform_of "uGamma" (compositePass pass') = Some uGamma ∧
  uniform_of "tAccumulation" (compositePass pass') = Some (JsTexture AccumulationTarget) ∧
  uniform_of "tRevealage" (compositePass pass') = Some (JsTexture BaseTarget) ∧
  (∀ sub : WboitPass → Material,
     sub = opaquePass ∨ sub = transparentPass ∨ sub = compositePass →
     blending (sub pass') = blending (sub pass) ∧
     blendEquation (sub pass') = blendEquation (sub pass) ∧
     blendSrc (sub pass') = blendSrc (sub pass) ∧
     blendDst (sub pass') = blendDst (sub pass) ∧
     depthTest (sub pass') = depthTest (sub pass) ∧
     depthWrite (sub pass') = depthWrite (sub pass)).
Proof.
  intros Hscene HisScene [uo Huo] [ut Hut] [uc Huc].
  assert (Hvalid : scene_valid (scene pass) h = Some t).
  { unfold scene_valid. now rewrite Hscene, HisScene. }
  destruct (render_on_valid_scene W toFixed1 pass renderer writeBuffer h t Hvalid)
    as (made & _ & ->).
  intros [= <- _ _]. unfold uniform_of, set_uniform, gamma. cbn.
  rewrite Huo, Hut, Huc. cbn.
  rewrite !lookup_insert_eq.
  rewrite (lookup_insert_ne _ "tRevealage" "tAccumulation") by discriminate.
  rewrite (lookup_insert_ne _ "tRevealage" "uGamma") by discriminate.
  rewrite (lookup_insert_ne _ "tAccumulation" "uGamma") by discriminate.
  rewrite !lookup_insert_eq.
  split_and!; try reflexivity.
  intros sub [-> | [-> | ->]]; cbn; repeat split; reflexivity.
Qed.

Lemma render_sets_sub_pass_uniforms_witness :
  match render SampleStages Number_toFixed1
          (a_pass (SceneObject one_mesh_scene) JsUndefined (JsNum 0))
          (a_renderer no_gl 1) Screen wboit_mesh_heap with
  | Returns (pass', _, _) =>
      uniform_of "uGamma" (opaquePass pass') = Some (JsNum 1) ∧
      uniform_of "tRevealage" (compositePass pass') = Some (JsTexture BaseTarget)
  | Throws _ => False
  end.
Proof.
  destruct (render SampleStages Number_toFixed1
              (a_pass (SceneObject one_mesh_scene) JsUndefined (JsNum 0))
              (a_renderer no_gl 1) Screen wboit_mesh_heap)
    as [[[pass' renderer'] h']|e] eqn:E; [|vm_compute in E; discriminate E].
  assert (Hu : ∀ m, m = new_opaquePass ∨ m = new_transparentPass ∨ m = new_compositePass →
                    is_Some (uniforms m)).
  { intros m [-> | [-> | ->]]; eexists; reflexivity. }
  destruct (render_sets_sub_pass_uniforms SampleStages Number_toFixed1
              (a_pass (SceneObject one_mesh_scene) JsUndefined (JsNum 0)) pass'
              (a_renderer no_gl 1) renderer' Screen wboit_mesh_heap h'
              one_mesh_scene eq_refl eq_refl
              (Hu _ (or_introl eq_refl)) (Hu _ (or_intror (or_introl eq_refl)))
              (Hu _ (or_intror (or_intror eq_refl))) E)
    as (Ho & _ & _ & _ & Hr & _).
  split; [exact Ho | exact Hr].
Defined.

(** X4. The size of the render targets plays no part in a frame: rendering
    after [setSize(w, h)] does to the renderer and to the scene exactly what
    rendering before it does, and leaves the pass that rendering first and
    resizing afterwards leaves. *)
Theorem render_ignores_target_size
    (W : WboitStagesT) (toFixed1 : float → string)
    (pass : WboitPass) (renderer : WebGLRenderer) (writeBuffer : Target) (h : Heap)
    (width height : float) :
  render W toFixed1 (setSize width height pass) renderer writeBuffer h =
  match render W toFixed1 pass renderer writeBuffer h with
  | Returns (pass', renderer', h') => Returns (setSize width height pass', renderer', h')
  | Throws e => Throws e
  end.
Proof.
  destruct (scene_valid (scene pass) h) as [t|] eqn:Hvalid.
  - destruct (render_on_valid_scene W toFixed1 pass renderer writeBuffer h t Hvalid)
      as (made & Hmade & ->).
    destruct (render_on_valid_scene W toFixed1 (setSize width height pass) renderer
                writeBuffer h t Hvalid) as (made' & Hmade' & ->).
    cbn in Hmade'. rewrite <- Hmade in Hmade'. subst made'. reflexivity.
  - unfold render. cbn [scene setSize]. now rewrite Hvalid.
Qed.

(** *** The groups *)

Lemma filter_by_membership {A : Type} `{EqDecision A} (P : A → Prop)
    `{∀ x, Decision (P x)} (l0 l : list A) :
  (∀ x, x ∈ l → x ∈ l0) →
  filter (fun x => x ∈ filter P l0) l = filter P l.
Proof.
  induction l as [|x l IH]; intros Hsub; [reflexivity|].
  rewrite !filter_cons, IH by (intros y Hy; apply Hsub, elem_of_cons; now right).
  assert (Hx : x ∈ l0) by (apply Hsub, elem_of_cons; now left).
  destruct (decide (P x)) as [HP|HP].
  - rewrite decide_True by (apply list_elem_of_filter; auto). reflexivity.
  - rewrite decide_False; [reflexivity|].
    intros Hin. apply list_elem_of_filter in Hin as [? _]. contradiction.
Qed.

(** X7. Each of the three groups lists its objects in the order the scene
    graph is traversed (parents before children, siblings in order), each
    object as often as the traversal meets it: the group is the traversal
    with the objects of the other groups and the skipped objects struck out.
    So a scene graph without repeated objects gives groups without repeated
    objects. *)
Theorem groups_keep_traversal_order (scene_ : Object3DTree) (h : Heap) (c : Caches) :
  let f := gatherMeshes scene_ (mkFrame h c [] [] []) in
  opaqueMeshes f = filter (fun o => o ∈ opaqueMeshes f) (preorder scene_) ∧
  transparentMeshes f = filter (fun o => o ∈ transparentMeshes f) (preorder scene_) ∧
  wboitMeshes f = filter (fun o => o ∈ wboitMeshes f) (preorder scene_) ∧
  (NoDup (preorder scene_) →
   NoDup (opaqueMeshes f) ∧ NoDup (transparentMeshes f) ∧ NoDup (wboitMeshes f)).
Proof.
  intros f. subst f.
  destruct (gatherMeshes_groups scene_ h c) as (_ & Ho & Ht & Hw).
  rewrite Ho, Ht, Hw.
  split_and!; try (symmetry; apply filter_by_membership; auto).
  intros Hnd. split_and!; now apply NoDup_filter.
Qed.

Lemma groups_keep_traversal_order_witness :
  NoDup (wboitMeshes (gatherMeshes one_mesh_scene (mkFrame wboit_mesh_heap empty_caches [] [] []))).
Proof.
  apply (groups_keep_traversal_order one_mesh_scene wboit_mesh_heap empty_caches).
  cbn. apply NoDup_cons. split.
  - intros H. apply list_elem_of_singleton in H. discriminate H.
  - apply NoDup_singleton.
Defined.

Lemma set_all_visible_in v meshes :
  ∀ h o, o ∈ meshes → visible (objs (set_all_visible v meshes h) o) = JsBool v.
Proof.
  induction meshes as [|mesh_ rest IH]; intros h o Ho; [now apply elem_of_nil in Ho|].
  change (set_all_visible v (mesh_ :: rest) h)
    with (set_all_visible v rest (upd_obj mesh_ (set_visible (JsBool v)) h)).
  destruct (decide (o ∈ rest)) as [Hin|Hout].
  - now apply IH.
  - apply elem_of_cons in Ho as [->|Ho]; [|contradiction].
    rewrite (set_all_visible_other v rest _ _ Hout), objs_upd_obj.
    now rewrite decide_True by reflexivity.
Qed.

(** X8. [changeVisible(a, b, c)] isolates the groups: on any frame that
    carries the three groups classification built, afterwards every object
    of the opaque group has [visible = a], every object of the transparent
    group [visible = b], every object of the WBOIT group [visible = c], an
    object of no group (a skipped, invisible or material-less one) is what
    it was, and no material has changed.  With [(true, false, false)],
    [(false, true, false)] and [(false, false, true)] each scene render of
    the frame therefore shows one group and hides the other two. *)
Theorem changeVisible_isolates_groups
    (scene_ : Object3DTree) (h : Heap) (c : Caches) (g : Frame)
    (opaqueVisible transparentVisible wboitVisible : bool) :
  let f := gatherMeshes scene_ (mkFrame h c [] [] []) in
  opaqueMeshes g = opaqueMeshes f →
  transparentMeshes g = transparentMeshes f →
  wboitMeshes g = wboitMeshes f →
  let g' := changeVisible opaqueVisible transparentVisible wboitVisible g in
  (∀ o, o ∈ opaqueMeshes f → visible (objs (heap g') o) = JsBool opaqueVisible) ∧
  (∀ o, o ∈ transparentMeshes f → visible (objs (heap g') o) = JsBool transparentVisible) ∧
  (∀ o, o ∈ wboitMeshes f → visible (objs (heap g') o) = JsBool wboitVisible) ∧
  (∀ o, o ∉ opaqueMeshes f → o ∉ transparentMeshes f → o ∉ wboitMeshes f →
        objs (heap g') o = objs (heap g) o) ∧
  mats (heap g') = mats (heap g).
Proof.
  intros f Ho Ht Hw g'. subst g'. unfold changeVisible. cbn [with_heap heap].
  rewrite Ho, Ht, Hw. subst f.
  destruct (gatherMeshes_groups scene_ h c) as (_ & Eo & Et & Ew).
  rewrite Eo, Et, Ew. clear.
  set (l := preorder scene_).
  assert (Hdisj : ∀ o g1 g2, g1 ≠ g2 →
            o ∈ filter (fun o => spec_group h o = Some g1) l →
            o ∉ filter (fun o => spec_group h o = Some g2) l).
  { intros o g1 g2 Hne H1 H2.
    apply list_elem_of_filter in H1 as [H1 _], H2 as [H2 _]. congruence. }
  split_and!.
  - intros o Hin.
    rewrite (set_all_visible_other _ _ _ o (Hdisj o Opaque Wboit ltac:(discriminate) Hin)).
    rewrite (set_all_visible_other _ _ _ o
               (Hdisj o Opaque SimpleTransparent ltac:(discriminate) Hin)).
    now apply set_all_visible_in.
  - intros o Hin.
    rewrite (set_all_visible_other _ _ _ o
               (Hdisj o SimpleTransparent Wboit ltac:(discriminate) Hin)).
    now apply set_all_visible_in.
  - intros o Hin. now apply set_all_visible_in.
  - intros o H1 H2 H3. now rewrite !set_all_visible_other.
  - now rewrite !set_all_visible_mats.
Qed.

Lemma changeVisible_isolates_groups_witness :
  let f := gatherMeshes one_mesh_scene (mkFrame wboit_mesh_heap empty_caches [] [] []) in
  visible (objs (heap (changeVisible true false false f)) 1) = JsBool false.
Proof.
  cbv zeta.
  apply (changeVisible_isolates_groups one_mesh_scene wboit_mesh_heap empty_caches
           (gatherMeshes one_mesh_scene (mkFrame wboit_mesh_heap empty_caches [] [] []))
           true false false eq_refl eq_refl eq_refl).
  apply list_elem_of_In. vm_compute. auto.
Defined.

(** *** The configurator's unguarded read *)

Section ConfiguratorThrows.

Context (W : WboitStagesT) (toFixed1 : float → string).



End ConfiguratorThrows.


(** *** Construction with a renderer *)

(** The probe tries between one and three candidates, takes the type of the
    last one tried, and changes nothing of the renderer but the bound target
    and the calls made. *)
Lemma probe_outcome (r : WebGLRenderer) :
  ∃ k, k < 3 ∧
       targetTypes !! k = Some (fst (probe r)) ∧
       snd (probe r) =
       mkRenderer (autoClear r) (r_clearColor r) (r_clearAlpha r) (ProbeTarget k)
         (outputColorSpace r) (r_width r) (r_height r) (r_pixelRatio r) (r_gl r)
         (calls r ++ concat (map probe_calls (seq 0 (S k)))).
Proof.
  unfold probe. cbn [probe_loop targetTypes].
  rewrite !r_gl_log. cbn [r_gl ShaderPass_render log].
  destruct (round_trip_ok (r_gl r) 0).
  { exists 0. split; [lia|]. split; [reflexivity|].
    cbn. unfold log, ShaderPass_render. cbn. now rewrite <- app_assoc. }
  cbn [orb length Nat.sub Nat.eqb fst snd].
  destruct (round_trip_ok (r_gl r) 1).
  { exists 1. split; [lia|]. split; [reflexivity|].
    cbn. unfold log, ShaderPass_render. cbn. now rewrite <- !app_assoc. }
  cbn [orb length Nat.sub Nat.eqb fst snd]. rewrite orb_true_r.
  exists 2. split; [lia|]. split; [reflexivity|].
  cbn. unfold log, ShaderPass_render. cbn. now rewrite <- !app_assoc.
Qed.

(** X10. Given a renderer, construction does not throw and logs nothing.
    It leaves the renderer as it found it apart from the calls made: the
    render target bound before the probe is bound again and the clear colour
    and alpha are set back (the renderer's clear colour being a [Color] and
    its alpha not [undefined]).  The calls are one to three probe rounds and
    then the two restoring calls.  The pass starts with all caches empty,
    [clear], [clearDepth] and [needsSwap] false, [clearAlpha] equal to the
    argument or to 0 when the argument is [undefined], and two render
    targets of equal size and type, the base target with a depth buffer and
    the accumulation target without. *)
Theorem construction_with_renderer
    (r : WebGLRenderer) (scene_ : SceneArg) (camera_ clearColor_ clearAlpha_ : JsVal) :
  (∃ x y z, r_clearColor r = JsColor x y z) →
  is_undefined (r_clearAlpha r) = false →
  ∃ this r' k,
    new_WboitPass (Renderer r) scene_ camera_ clearColor_ clearAlpha_
    = ([], Returns (ThePass this), Renderer r') ∧
    (autoClear r' = autoClear r ∧ r_renderTarget r' = r_renderTarget r ∧
     r_clearColor r' = r_clearColor r ∧ r_clearAlpha r' = r_clearAlpha r ∧
     outputColorSpace r' = outputColorSpace r ∧ r_width r' = r_width r ∧
     r_height r' = r_height r ∧ r_pixelRatio r' = r_pixelRatio r ∧ r_gl r' = r_gl r) ∧
    (k < 3 ∧
     calls r' =
       calls r ++ concat (map probe_calls (seq 0 (S k)))
       ++ [ CallSetRenderTarget (r_renderTarget r);
            CallSetClearColor (r_clearColor r) (r_clearAlpha r) ] ∧
     targetTypes !! k = Some (rt_type (baseTarget this))) ∧
    (scene this = scene_ ∧ camera this = camera_ ∧ clearColor this = clearColor_ ∧
     clearAlpha this = (if is_undefined clearAlpha_ then JsNum 0 else clearAlpha_) ∧
     clear this = false ∧ clearDepth this = false ∧ needsSwap this = false ∧
     pass_caches this = empty_caches) ∧
    (rt_width (accumulationTarget this) = rt_width (baseTarget this) ∧
     rt_height (accumulationTarget this) = rt_height (baseTarget this) ∧
     rt_type (accumulationTarget this) = rt_type (baseTarget this) ∧
     rt_depthBuffer (baseTarget this) = true ∧
     rt_depthBuffer (accumulationTarget this) = false).
Proof.
  intros (x & y & z & Hcolor) Halpha.
  unfold new_WboitPass, constructor_body.
  destruct (probe_outcome r) as (k & Hk & Htype & Hr).
  destruct (probe r) as [targetType r1]. cbn [fst snd] in Htype, Hr. subst r1.
  eexists _, _, k. split; [reflexivity|]. cbn.
  rewrite Hcolor, Halpha. cbn.
  split_and!; try reflexivity; try assumption.
  - rewrite <- !app_assoc. reflexivity.
  - now destruct (is_undefined clearAlpha_).
Qed.

Lemma construction_with_renderer_witness :
  ∃ this r' k,
    new_WboitPass (Renderer (a_renderer gl_8bit_only 2)) (SceneObject one_mesh_scene)
      (JsObj 0) JsUndefined JsUndefined
    = ([], Returns (ThePass this), Renderer r') ∧
    r_renderTarget r' = Screen ∧ clearAlpha this = JsNum 0 ∧
    pass_caches this = empty_caches ∧ k < 3.
Proof.
  assert (Hcolor : ∃ x y z, r_clearColor (a_renderer gl_8bit_only 2) = JsColor x y z)
    by (eexists _, _, _; reflexivity).
  destruct (construction_with_renderer (a_renderer gl_8bit_only 2)
              (SceneObject one_mesh_scene) (JsObj 0) JsUndefined JsUndefined Hcolor eq_refl)
    as (this & r' & k & E & (_ & Ht & _) & (Hk & _) & (_ & _ & _ & Ha & _ & _ & _ & Hc) & _).
  exists this, r', k. auto.
Defined.

Lemma render_times_restores_blend_and_objects_witness :
  match render_times SampleStages Number_toFixed1 3
          (a_pass (SceneObject one_mesh_scene) (JsNum 0) (JsNum 0))
          (a_renderer no_gl 1) Screen wboit_mesh_heap with
  | Returns (_, _, h') =>
      blendSrc (mats h' 0) = SrcAlphaFactor ∧ visible (objs h' 1) = JsBool true
  | Throws _ => False
  end.
Proof.
  destruct (render_times SampleStages Number_toFixed1 3
              (a_pass (SceneObject one_mesh_scene) (JsNum 0) (JsNum 0))
              (a_renderer no_gl 1) Screen wboit_mesh_heap)
    as [[[pass' renderer'] h']|e] eqn:E; [|vm_compute in E; discriminate E].
  destruct (render_times_restores_blend_and_objects SampleStages Number_toFixed1 3
              eq_refl eq_refl
              (a_pass (SceneObject one_mesh_scene) (JsNum 0) (JsNum 0))
              (a_renderer no_gl 1) Screen wboit_mesh_heap pass' renderer' h' eq_refl E)
    as [Hb Ho].
  destruct (Hb 0) as (_ & _ & -> & _). rewrite (Ho 1). split; reflexivity.
Defined.

Lemma prepareWboitBlending_delivery_witness :
  ∃ f' u',
    prepareWboitBlending SampleStages Number_toFixed1 (Acummulation SampleStages)
      (gatherMeshes one_mesh_scene (mkFrame wboit_mesh_heap empty_caches [] [] []))
    = Returns f' ∧
    uniforms (mats (heap f') 0) = Some u' ∧
    u' !! "renderStage" = Some (JsStr "1.0").
Proof.
  destruct (prepareWboitBlending_delivery SampleStages Number_toFixed1
              (Acummulation SampleStages)
              (gatherMeshes one_mesh_scene (mkFrame wboit_mesh_heap empty_caches [] [] [])) 0
              (gatherMeshes_wboit_has_material one_mesh_scene wboit_mesh_heap empty_caches))
    as (f' & E & _ & H).
  destruct (H 1) as [_ Hu].
  - apply list_elem_of_In. vm_compute. auto.
  - apply list_elem_of_In. vm_compute. auto.
  - reflexivity.
  - destruct (Hu {[ "renderStage" := JsNum 0 ]}) as (u' & Hu1 & Hu2).
    + reflexivity.
    + reflexivity.
    + eexists. reflexivity.
    + exists f', u'. auto.
Defined.

(** *** The depth fields across a frame *)

Lemma visited_objs h h' o : objs h' = objs h → visited h' o = visited h o.
Proof. intros H. unfold visited. now rewrite H. Qed.

Lemma visited_spec_group h o : visited h o = bool_decide (is_Some (spec_group h o)).
Proof.
  unfold visited, spec_group.
  destruct (has_material (material (objs h o)) && truthy (visible (objs h o))).
  - symmetry. apply bool_decide_eq_true. eauto.
  - symmetry. apply bool_decide_eq_false. intros [g Hg]. discriminate Hg.
Qed.

(** The first loop of the visitor leaves, for each of its materials, the
    depth fields the material has in the heap. *)
Lemma gather_flags_depth_caches h materials m :
  ∀ t w c,
    let c' := (gather_flags h materials t w c).2 in
    _depthTestCache c' !! m
    = (if decide (m ∈ materials) then Some (depthTest (mats h m))
       else _depthTestCache c !! m) ∧
    _depthWriteCache c' !! m
    = (if decide (m ∈ materials) then Some (depthWrite (mats h m))
       else _depthWriteCache c !! m).
Proof.
  induction materials as [|mi rest IH]; intros t w c; cbn [gather_flags].
  - cbn. rewrite !decide_False by apply not_elem_of_nil. auto.
  - match goal with
    | |- context [gather_flags h rest ?t' ?w' ?c'] => destruct (IH t' w' c') as [-> ->]
    end.
    cbn [_depthTestCache _depthWriteCache]. rewrite !lookup_insert.
    destruct (decide (m ∈ rest)) as [Hin|Hout].
    + rewrite !decide_True by (apply elem_of_cons; auto). auto.
    + destruct (decide (mi = m)) as [->|Hne].
      * rewrite !decide_True by (apply elem_of_cons; auto). auto.
      * rewrite !decide_False; [auto| |];
          intros [?|?]%elem_of_cons; congruence.
Qed.

Lemma snapshot_blend_depth_caches h materials :
  ∀ c, _depthTestCache (snapshot_blend h materials c) = _depthTestCache c ∧
       _depthWriteCache (snapshot_blend h materials c) = _depthWriteCache c.
Proof.
  induction materials as [|mi rest IH]; intros c; cbn [snapshot_blend]; [auto|].
  destruct (IH (mkCaches (_visibilityCache c)
                  (<[mi := blending (mats h mi)]> (_blendingCache c))
                  (<[mi := blendEquation (mats h mi)]> (_blendEquationCache c))
                  (<[mi := blendSrc (mats h mi)]> (_blendSrcCache c))
                  (<[mi := blendDst (mats h mi)]> (_blendDstCache c))
                  (_depthTestCache c) (_depthWriteCache c))) as [-> ->].
  auto.
Qed.

(** The loops of the opaque and transparent branches write to their own
    materials only. *)
Lemma force_depth_other test write materials m :
  m ∉ materials → ∀ h, mats (force_depth test write materials h) m = mats h m.
Proof.
  induction materials as [|mi rest IH]; intros Hm h; cbn [force_depth]; [reflexivity|].
  apply not_elem_of_cons in Hm as [Hne Hm].
  rewrite (IH Hm). heap_cases.
Qed.

Lemma Map_set_keys_inv k v l k' : k' ∈ (Map_set k v l).*1 → k' = k ∨ k' ∈ l.*1.
Proof.
  intros ((k1 & v1) & -> & Hin)%list_elem_of_fmap.
  apply Map_set_elem in Hin as [[= -> ->]|Hin]; [now left|].
  right. apply list_elem_of_fmap. now exists (k1, v1).
Qed.

(** One visit, seen from a material: a material the visited object does not
    have is left alone, with its entries of the depth caches; a material it
    has gets its depth fields cached.  The visibility cache gains at most
    the visited object. *)
Lemma gather_visit_depth o f m :
  let f' := gather_visit o f in
  let materials := if visited (heap f) o then as_array (material (objs (heap f) o)) else [] in
  objs (heap f') = objs (heap f) ∧
  (m ∉ materials →
     mats (heap f') m = mats (heap f) m ∧
     _depthTestCache (caches f') !! m = _depthTestCache (caches f) !! m ∧
     _depthWriteCache (caches f') !! m = _depthWriteCache (caches f) !! m) ∧
  (m ∈ materials →
     _depthTestCache (caches f') !! m = Some (depthTest (mats (heap f) m)) ∧
     _depthWriteCache (caches f') !! m = Some (depthWrite (mats (heap f) m))) ∧
  (∀ k, k ∈ (_visibilityCache (caches f')).*1 →
        k ∈ (_visibilityCache (caches f)).*1 ∨ (k = o ∧ visited (heap f) o = true)).
Proof.
  cbv zeta. rewrite gather_visit_eq, visited_spec_group.
  destruct (spec_group (heap f) o) as [g|] eqn:Hg.
  2: { rewrite bool_decide_eq_false_2 by (intros [? ?]; discriminate).
       split_and!; auto. intros H. now apply not_elem_of_nil in H. }
  rewrite bool_decide_eq_true_2 by eauto.
  set (materials := as_array (material (objs (heap f) o))).
  pose proof (gather_flags_depth_caches (heap f) materials m (JsBool true) (JsBool true)
                (caches f)) as [Ht Hw].
  cbv zeta in Ht, Hw.
  pose proof (gather_flags_other_caches (heap f) materials (JsBool true) (JsBool true)
                (caches f)) as (Hv & _).
  cbv zeta in Hv.
  assert (Hkeys : ∀ c k,
            _visibilityCache c = _visibilityCache (caches f) →
            k ∈ (_visibilityCache (cache_visible o (visible (objs (heap f) o)) c)).*1 →
            k ∈ (_visibilityCache (caches f)).*1 ∨ (k = o ∧ true = true)).
  { intros c k Hc Hk. cbn [cache_visible _visibilityCache] in Hk.
    apply Map_set_keys_inv in Hk as [->|Hk]; [auto|]. left. now rewrite <- Hc. }
  destruct g; unfold visit_result; fold materials;
    cbn [heap caches cache_visible _depthTestCache _depthWriteCache].
  - split_and!.
    + apply force_depth_objs.
    + intros Hm. rewrite Ht, Hw, !decide_False by assumption.
      split_and!; auto using force_depth_other.
    + intros Hm. rewrite Ht, Hw, !decide_True by assumption. auto.
    + intros k. apply Hkeys. exact Hv.
  - split_and!.
    + apply force_depth_objs.
    + intros Hm. rewrite Ht, Hw, !decide_False by assumption.
      split_and!; auto using force_depth_other.
    + intros Hm. rewrite Ht, Hw, !decide_True by assumption. auto.
    + intros k. apply Hkeys. exact Hv.
  - destruct (snapshot_blend_depth_caches (heap f) materials
                (gather_flags (heap f) materials (JsBool true) (JsBool true) (caches f)).2)
      as [-> ->].
    split_and!.
    + reflexivity.
    + intros Hm. rewrite Ht, Hw, !decide_False by assumption. auto.
    + intros Hm. rewrite Ht, Hw, !decide_True by assumption. auto.
    + intros k. apply Hkeys. now rewrite snapshot_blend_visibility.
Qed.

(** The whole traversal, seen from a material [m]: left alone when no visit
    has it; when exactly one position of the visits' loops has it, the
    depth caches hold the depth fields it had before the traversal. *)
Lemma gather_fold_depth h0 l m :
  ∀ f, objs (heap f) = objs h0 →
    let f' := fold_left (fun s o => gather_visit o s) l f in
    objs (heap f') = objs h0 ∧
    (m ∉ visited_materials h0 l →
       mats (heap f') m = mats (heap f) m ∧
       _depthTestCache (caches f') !! m = _depthTestCache (caches f) !! m ∧
       _depthWriteCache (caches f') !! m = _depthWriteCache (caches f) !! m) ∧
    (count_occ Nat.eq_dec (visited_materials h0 l) m = 1 →
       _depthTestCache (caches f') !! m = Some (depthTest (mats (heap f) m)) ∧
       _depthWriteCache (caches f') !! m = Some (depthWrite (mats (heap f) m))) ∧
    (∀ k, k ∈ (_visibilityCache (caches f')).*1 →
          k ∈ (_visibilityCache (caches f)).*1 ∨ (k ∈ l ∧ visited h0 k = true)).
Proof.
  induction l as [|o l IH]; intros f Hf; cbn [fold_left visited_materials flat_map].
  - cbn [count_occ]. split_and!; auto. discriminate.
  - fold (visited_materials h0 l).
    destruct (gather_visit_depth o f m) as (Ho & Hout & Hin & Hk).
    rewrite (visited_objs h0 (heap f) o Hf) in Hout, Hin, Hk. rewrite Hf in Hout, Hin.
    set (materials := if visited h0 o then as_array (material (objs h0 o)) else []) in *.
    destruct (IH (gather_visit o f)) as (Ho' & Hout' & Hin' & Hk'); [congruence|].
    cbv zeta. split_and!.
    + exact Ho'.
    + intros [Hm1 Hm2]%not_elem_of_app.
      destruct (Hout Hm1) as (<- & <- & <-). auto.
    + rewrite count_occ_app. intros Hcount.
      destruct (decide (m ∈ materials)) as [Hm|Hm].
      * assert (Hrest : m ∉ visited_materials h0 l).
        { rewrite list_elem_of_In, (count_occ_not_In Nat.eq_dec).
          apply list_elem_of_In, (count_occ_In Nat.eq_dec) in Hm. lia. }
        destruct (Hout' Hrest) as (_ & -> & ->). auto.
      * destruct (Hout Hm) as (<- & _ & _). apply Hin'.
        rewrite list_elem_of_In, (count_occ_not_In Nat.eq_dec) in Hm. lia.
    + intros k [Hin0|[Hin1 Hv]]%Hk'.
      * apply Hk in Hin0 as [?|[-> ?]]; [auto|]. right. split; [left|assumption].
      * right. split; [now right|assumption].
Qed.

Lemma gatherMeshes_depth scene_ h c m :
  let f := gatherMeshes scene_ (mkFrame h c [] [] []) in
  objs (heap f) = objs h ∧
  (m ∉ visited_materials h (preorder scene_) → mats (heap f) m = mats h m) ∧
  (count_occ Nat.eq_dec (visited_materials h (preorder scene_)) m = 1 →
     _depthTestCache (caches f) !! m = Some (depthTest (mats h m)) ∧
     _depthWriteCache (caches f) !! m = Some (depthWrite (mats h m))) ∧
  (_visibilityCache c = [] →
   ∀ k, k ∈ (_visibilityCache (caches f)).*1 → k ∈ preorder scene_ ∧ visited h k = true).
Proof.
  unfold gatherMeshes. rewrite traverse_preorder.
  destruct (gather_fold_depth h (preorder scene_) m (mkFrame h c [] [] []) eq_refl)
    as (Ho & Hout & Hin & Hk).
  cbv zeta. split_and!; [exact Ho| |exact Hin|].
  - intros Hm. now destruct (Hout Hm).
  - intros Hc k [Hk0|Hk1]%Hk; [|exact Hk1].
    cbn [caches] in Hk0. rewrite Hc in Hk0. now apply not_elem_of_nil in Hk0.
Qed.

(** The inner loop of [resetVisible], seen from a material. *)
Lemma reset_depth_at c materials m :
  ∀ h, mats (reset_depth c materials h) m
       = if decide (m ∈ materials) then reset_material c m (mats h m) else mats h m.
Proof.
  induction materials as [|mi rest IH]; intros h; cbn [reset_depth].
  - now rewrite decide_False by apply not_elem_of_nil.
  - rewrite IH. rewrite !mats_upd_mat.
    destruct (decide (mi = m)) as [->|Hne].
    + rewrite (decide_True (P := m ∈ m :: rest)) by (left).
      rewrite !(decide_True (P := m = m)) by reflexivity.
      destruct (decide (m ∈ rest)); [|reflexivity].
      unfold reset_material. now destruct (mats h m).
    + destruct (decide (m ∈ rest)) as [Hin|Hout].
      * now rewrite decide_True by (now right).
      * rewrite decide_False; [reflexivity|].
        intros [?|?]%elem_of_cons; congruence.
Qed.

Lemma reset_material_idem c m x :
  reset_material c m (reset_material c m x) = reset_material c m x.
Proof. unfold reset_material. now destruct x. Qed.

(** Whether the loop of [resetVisible] reaches material [m] through one of
    the cached objects, the objects' material slots being [slot]. *)
Lemma reset_fold_at c (slot : nat → MaterialSlot) m l :
  ∀ h, (∀ k, material (objs h k) = slot k) →
    mats (fold_left (reset_entry c) l h) m
    = if existsb (fun k => has_material (slot k) && bool_decide (m ∈ as_array (slot k))) l.*1
      then reset_material c m (mats h m) else mats h m.
Proof.
  induction l as [|[key value] l IH]; intros h Hslot; cbn [fold_left fmap list_fmap existsb fst].
  - reflexivity.
  - rewrite IH.
    2: { intros k. rewrite reset_entry_objs. case_decide; [subst|apply Hslot].
         rewrite <- Hslot. now destruct (objs h k). }
    assert (Hentry : mats (reset_entry c h (key, value)) m
                     = if has_material (slot key) && bool_decide (m ∈ as_array (slot key))
                       then reset_material c m (mats h m) else mats h m).
    { unfold reset_entry.
      assert (Hk : material (objs (upd_obj key (set_visible value) h) key) = slot key).
      { rewrite objs_upd_obj, decide_True by reflexivity. rewrite <- Hslot.
        now destruct (objs h key). }
      rewrite Hk. destruct (has_material (slot key)); cbn [andb].
      - rewrite reset_depth_at.
        case_bool_decide; [now rewrite decide_True | now rewrite decide_False].
      - reflexivity. }
    rewrite Hentry.
    destruct (has_material (slot key) && bool_decide (m ∈ as_array (slot key))); cbn [orb].
    + rewrite reset_material_idem.
      now destruct (existsb _ _).
    + reflexivity.
Qed.

Lemma visited_materials_pointwise h h' l :
  (∀ o, material (objs h' o) = material (objs h o) ∧
        visible (objs h' o) = visible (objs h o)) →
  visited_materials h' l = visited_materials h l.
Proof.
  intros H. unfold visited_materials, visited. induction l as [|o l IH]; cbn [flat_map].
  - reflexivity.
  - destruct (H o) as [-> ->]. now rewrite IH.
Qed.

Lemma elem_of_visited_materials h l m :
  m ∈ visited_materials h l ↔
  ∃ o, o ∈ l ∧ visited h o = true ∧ m ∈ as_array (material (objs h o)).
Proof.
  unfold visited_materials. rewrite list_elem_of_In, in_flat_map. split.
  - intros (o & Ho & Hm). exists o. apply list_elem_of_In in Ho.
    destruct (visited h o); [|destruct Hm].
    apply list_elem_of_In in Hm. auto.
  - intros (o & Ho & Hv & Hm). exists o. rewrite Hv.
    split; now apply list_elem_of_In.
Qed.

Section DepthAcrossFrames.

Context (W : WboitStagesT) (toFixed1 : float → string).

(** The end of a frame, seen from a material [m]: untouched when no visited
    object has it; with its two depth fields exchanged when exactly one
    position of the visits' loops has it. *)
Lemma frame_at_end_depth scene_ h c m :
  _visibilityCache c = [] →
  let f := frame_at_end W toFixed1 (gatherMeshes scene_ (mkFrame h c [] [] [])) in
  (m ∉ visited_materials h (preorder scene_) → mats (heap f) m = mats h m) ∧
  (count_occ Nat.eq_dec (visited_materials h (preorder scene_)) m = 1 →
     depthTest (mats (heap f) m) = depthWrite (mats h m) ∧
     depthWrite (mats (heap f) m) = depthTest (mats h m)).
Proof.
  intros Hc f. subst f. unfold frame_at_end.
  set (f2 := gatherMeshes scene_ (mkFrame h c [] [] [])).
  set (f5 := changeVisible false false true _).
  set (fA := prepared W toFixed1 (Acummulation W) f5).
  set (fR := prepared W toFixed1 (Revealage W) fA).
  set (fN := prepared W toFixed1 (Normal W) fR).
  destruct (gatherMeshes_depth scene_ h c m) as (Hobjs & Hout & Hin & Hkeys).
  fold f2 in Hobjs, Hout, Hin, Hkeys. specialize (Hkeys Hc).
  destruct (gatherMeshes_groups scene_ h c) as (_ & Hgo & Hgt & Hgw).
  fold f2 in Hgo, Hgt, Hgw.
  destruct (gatherMeshes_visibility scene_ h c Hc) as [_ Hgrouped]. fold f2 in Hgrouped.
  assert (Hslot5 : ∀ k, material (objs (heap f5) k) = material (objs h k)).
  { intros k. subst f5. unfold changeVisible. cbn [with_heap heap].
    now rewrite !set_all_visible_material, Hobjs. }
  assert (HslotN : ∀ k, material (objs (heap fN) k) = material (objs h k)).
  { intros k. subst fN fR fA. now rewrite !prepared_objs. }
  unfold resetVisible. cbn [with_heap heap].
  rewrite (reset_fold_at (caches fN) (fun k => material (objs h k)) m _ _ HslotN).
  change (caches fN) with (caches f2).
  split.
  - intros Hm.
    assert (Hnone : existsb (fun k => has_material (material (objs h k))
                                      && bool_decide (m ∈ as_array (material (objs h k))))
                      (_visibilityCache (caches f2)).*1 = false).
    { apply not_true_is_false. intros (k & Hk & Hb)%existsb_exists.
      apply list_elem_of_In, Hkeys in Hk as [Hk Hv].
      apply andb_true_iff in Hb as [_ Hb%bool_decide_eq_true].
      apply Hm, elem_of_visited_materials. eauto. }
    rewrite Hnone.
    assert (Ht5 : touched f5 m = false).
    { unfold touched. apply andb_false_iff. right. apply Nat.ltb_ge.
      assert (H0 : count_occ Nat.eq_dec (wboit_materials f5) m = 0); [|lia].
      apply count_occ_not_In. unfold wboit_materials. rewrite in_flat_map.
      intros (o & Ho & Hmo). apply list_elem_of_In in Ho, Hmo.
      change (wboitMeshes f5) with (wboitMeshes f2) in Ho.
      rewrite Hgw in Ho. apply list_elem_of_filter in Ho as [Hg Ho].
      rewrite Hslot5 in Hmo. apply Hm, elem_of_visited_materials.
      exists o. split_and!; [assumption| |assumption].
      rewrite visited_spec_group. apply bool_decide_eq_true. eauto. }
    pose proof (prepared_mats W toFixed1 (Normal W) fR m) as HN. fold fN in HN.
    pose proof (prepared_mats W toFixed1 (Revealage W) fA m) as HR. fold fR in HR.
    pose proof (prepared_mats W toFixed1 (Acummulation W) f5 m) as HA. fold fA in HA.
    assert (HtR : touched fR m = false).
    { subst fR fA. now rewrite !prepared_touched. }
    assert (HtA : touched fA m = false).
    { subst fA. now rewrite prepared_touched. }
    rewrite HtR in HN. rewrite HtA in HR. rewrite Ht5 in HA.
    rewrite HN, HR, HA. subst f5. rewrite !changeVisible_mats. now apply Hout.
  - intros Hcount.
    assert (Hm : m ∈ visited_materials h (preorder scene_)).
    { apply list_elem_of_In, (count_occ_In Nat.eq_dec). lia. }
    apply elem_of_visited_materials in Hm as (o & Ho & Hv & Hmo).
    assert (Hsome : existsb (fun k => has_material (material (objs h k))
                                      && bool_decide (m ∈ as_array (material (objs h k))))
                      (_visibilityCache (caches f2)).*1 = true).
    { apply existsb_exists. exists o. split.
      - apply list_elem_of_In, Hgrouped. rewrite Hgo, Hgt, Hgw, !list_elem_of_filter.
        rewrite visited_spec_group in Hv. apply bool_decide_eq_true in Hv as [g Hg].
        destruct g; auto.
      - unfold visited in Hv. apply andb_true_iff in Hv as [-> _]. cbn [andb].
        now apply bool_decide_eq_true. }
    rewrite Hsome. destruct (Hin Hcount) as [Ht Hw].
    unfold reset_material, Map_get. rewrite Ht, Hw.
    now destruct (mats (heap fN) m).
Qed.

(** One [render] on a valid scene, seen from a material, with what the next
    call needs: the scene is still valid, the visibility cache empty and the
    objects as before. *)
Lemma render_depth pass renderer writeBuffer h t pass' renderer' h' :
  scene_valid (scene pass) h = Some t →
  _visibilityCache (pass_caches pass) = [] →
  render W toFixed1 pass renderer writeBuffer h = Returns (pass', renderer', h') →
  scene_valid (scene pass') h' = Some t ∧
  _visibilityCache (pass_caches pass') = [] ∧
  (∀ o, objs h' o = objs h o) ∧
  (∀ m, m ∉ visited_materials h (preorder t) → mats h' m = mats h m) ∧
  (∀ m, count_occ Nat.eq_dec (visited_materials h (preorder t)) m = 1 →
        depthTest (mats h' m) = depthWrite (mats h m) ∧
        depthWrite (mats h' m) = depthTest (mats h m)).
Proof.
  intros Hvalid Hc E.
  destruct (render_on_valid_scene W toFixed1 pass renderer writeBuffer h t Hvalid)
    as (made & _ & E').
  cbv zeta in E'. rewrite E' in E. injection E as <- <- <-. clear E'.
  set (h1 := upd_obj (root t) (set_overrideMaterial JsNull) h).
  assert (Hobjs : ∀ o, objs (upd_obj (root t)
                               (set_overrideMaterial (overrideMaterial (objs h (root t))))
                               (heap (frame_at_end W toFixed1
                                        (gatherMeshes t (mkFrame h1 (pass_caches pass) [] [] [])))))
                         o = objs h o).
  { intros o. rewrite objs_upd_obj.
    rewrite !(frame_at_end_objs W toFixed1 t h1 (pass_caches pass) _ Hc).
    subst h1. rewrite !objs_upd_obj.
    destruct (decide (root t = o)) as [<-|Ho]; [|reflexivity].
    rewrite decide_True by reflexivity. now destruct (objs h (root t)). }
  assert (Hvm : visited_materials h1 (preorder t) = visited_materials h (preorder t)).
  { apply visited_materials_pointwise. intros o. subst h1. rewrite objs_upd_obj.
    destruct (decide (root t = o)) as [<-|Ho]; [|auto]. now destruct (objs h (root t)). }
  split_and!.
  - cbn [scene]. unfold scene_valid in Hvalid |- *.
    destruct (scene pass) as [v|t0]; [discriminate|].
    rewrite Hobjs. exact Hvalid.
  - reflexivity.
  - exact Hobjs.
  - intros m Hm. rewrite <- Hvm in Hm.
    apply (frame_at_end_depth t h1 (pass_caches pass) m Hc) in Hm. exact Hm.
  - intros m Hm. rewrite <- Hvm in Hm.
    apply (frame_at_end_depth t h1 (pass_caches pass) m Hc) in Hm. exact Hm.
Qed.

End DepthAcrossFrames.

Section DepthAcrossRenders.

Context (W : WboitStagesT) (toFixed1 : float → string).

(** X11. [render] writes to the materials of the objects its traversal
    visits and to no others.  On a valid scene and a pass whose visibility
    cache is empty at the start, after any number of [render] calls in a row
    that return, a material that belongs to no object of the scene having a
    material and a truthy [visible] (so the materials of hidden objects, of
    objects outside the scene, and of nothing at all) is exactly what it
    was, every field of it. *)
Theorem render_leaves_unvisited_materials n :
  ∀ pass renderer writeBuffer h t pass' renderer' h' m,
    scene_valid (scene pass) h = Some t →
    _visibilityCache (pass_caches pass) = [] →
    render_times W toFixed1 n pass renderer writeBuffer h = Returns (pass', renderer', h') →
    m ∉ visited_materials h (preorder t) →
    mats h' m = mats h m.
Proof.
  induction n as [|n IH]; intros pass renderer writeBuffer h t pass' renderer' h' m Hvalid Hc;
    cbn [render_times].
  - now intros [= <- <- <-].
  - destruct (render W toFixed1 pass renderer writeBuffer h) as [[[p1 r1] h1]|e] eqn:E;
      cbn [mbind Completion_bind]; [|discriminate].
    destruct (render_depth W toFixed1 _ _ _ _ _ _ _ _ Hvalid Hc E)
      as (Hvalid1 & Hc1 & Hobjs & Hout & _).
    intros Hrest Hm. rewrite <- (Hout m Hm).
    refine (IH _ _ _ _ _ _ _ _ _ Hvalid1 Hc1 Hrest _).
    rewrite (visited_materials_pointwise h h1); [exact Hm|].
    intros o. now rewrite Hobjs.
Qed.

(** X12. The exchange of the two depth fields, for any scene.  On a valid
    scene and a pass whose visibility cache is empty at the start, take a
    material that occurs exactly once among the materials of the scene's
    objects having a material and a truthy [visible] (one object has it,
    once).  After [n] calls of [render] in a row that return, its
    [depthTest] and [depthWrite] are the ones it had when [n] is even, and
    each holds what the other had when [n] is odd: every frame exchanges
    the two, whatever group the object is in. *)
Theorem render_exchanges_depth_of_unshared_material n :
  ∀ pass renderer writeBuffer h t pass' renderer' h' m,
    scene_valid (scene pass) h = Some t →
    _visibilityCache (pass_caches pass) = [] →
    render_times W toFixed1 n pass renderer writeBuffer h = Returns (pass', renderer', h') →
    count_occ Nat.eq_dec (visited_materials h (preorder t)) m = 1 →
    depthTest (mats h' m)
    = (if Nat.even n then depthTest (mats h m) else depthWrite (mats h m)) ∧
    depthWrite (mats h' m)
    = (if Nat.even n then depthWrite (mats h m) else depthTest (mats h m)).
Proof.
  induction n as [|n IH]; intros pass renderer writeBuffer h t pass' renderer' h' m Hvalid Hc;
    cbn [render_times].
  - intros [= <- <- <-]. auto.
  - destruct (render W toFixed1 pass renderer writeBuffer h) as [[[p1 r1] h1]|e] eqn:E;
      cbn [mbind Completion_bind]; [|discriminate].
    destruct (render_depth W toFixed1 _ _ _ _ _ _ _ _ Hvalid Hc E)
      as (Hvalid1 & Hc1 & Hobjs & _ & Hin).
    intros Hrest Hm. destruct (Hin m Hm) as [Ht Hw].
    destruct (IH _ _ _ _ _ _ _ _ m Hvalid1 Hc1 Hrest) as [-> ->].
    { rewrite (visited_materials_pointwise h h1); [exact Hm|].
      intros o. now rewrite Hobjs. }
    rewrite Ht, Hw, Nat.even_succ, <- Nat.negb_even.
    destruct (Nat.even n); auto.
Qed.

End DepthAcrossRenders.

Lemma render_leaves_unvisited_materials_witness :
  match render_times SampleStages Number_toFixed1 2
          (a_pass (SceneObject one_mesh_scene) (JsNum 0) (JsNum 0))
          (a_renderer no_gl 1) Screen hidden_mesh_heap with
  | Returns (_, _, h') => mats h' 0 = plain_material
  | Throws _ => False
  end.
Proof.
  destruct (render_times SampleStages Number_toFixed1 2
              (a_pass (SceneObject one_mesh_scene) (JsNum 0) (JsNum 0))
              (a_renderer no_gl 1) Screen hidden_mesh_heap)
    as [[[pass' renderer'] h']|e] eqn:E; [|vm_compute in E; discriminate E].
  apply (render_leaves_unvisited_materials SampleStages Number_toFixed1 2
           (a_pass (SceneObject one_mesh_scene) (JsNum 0) (JsNum 0))
           (a_renderer no_gl 1) Screen hidden_mesh_heap one_mesh_scene
           pass' renderer' h' 0 eq_refl eq_refl E).
  apply not_elem_of_nil.
Defined.

Lemma render_exchanges_depth_of_unshared_material_witness :
  match render_times SampleStages Number_toFixed1 3
          (a_pass (SceneObject one_mesh_scene) (JsNum 0) (JsNum 0))
          (a_renderer no_gl 1) Screen wboit_mesh_heap with
  | Returns (_, _, h') =>
      depthTest (mats h' 0) = JsBool false ∧ depthWrite (mats h' 0) = JsBool true
  | Throws _ => False
  end.
Proof.
  destruct (render_times SampleStages Number_toFixed1 3
              (a_pass (SceneObject one_mesh_scene) (JsNum 0) (JsNum 0))
              (a_renderer no_gl 1) Screen wboit_mesh_heap)
    as [[[pass' renderer'] h']|e] eqn:E; [|vm_compute in E; discriminate E].
  apply (render_exchanges_depth_of_unshared_material SampleStages Number_toFixed1 3
           (a_pass (SceneObject one_mesh_scene) (JsNum 0) (JsNum 0))
           (a_renderer no_gl 1) Screen wboit_mesh_heap one_mesh_scene
           pass' renderer' h' 0 eq_refl eq_refl E).
  reflexivity.
Defined.

(** *** The depth fields classification forces *)

Lemma force_depth_at test write materials m :
  ∀ h, mats (force_depth test write materials h) m
       = if decide (m ∈ materials)
         then set_depthWrite write (set_depthTest test (mats h m)) else mats h m.
Proof.
  induction materials as [|mi rest IH]; intros h; cbn [force_depth].
  - now rewrite decide_False by apply not_elem_of_nil.
  - rewrite IH, !mats_upd_mat.
    destruct (decide (mi = m)) as [->|Hne].
    + rewrite (decide_True (P := m ∈ m :: rest)) by (left).
      rewrite !(decide_True (P := m = m)) by reflexivity.
      destruct (decide (m ∈ rest)); [|reflexivity].
      now destruct (mats h m).
    + destruct (decide (m ∈ rest)) as [Hin|Hout].
      * now rewrite decide_True by (now right).
      * rewrite decide_False; [reflexivity|].
        intros [?|?]%elem_of_cons; congruence.
Qed.

(** One visit, seen from a material. *)
Lemma gather_visit_mats o f m :
  mats (heap (gather_visit o f)) m =
  let x := mats (heap f) m in
  if decide (m ∈ as_array (material (objs (heap f) o))) then
    match spec_group (heap f) o with
    | Some Opaque => set_depthWrite (JsBool true) (set_depthTest (JsBool true) x)
    | Some SimpleTransparent => set_depthWrite (JsBool false) (set_depthTest (JsBool true) x)
    | _ => x
    end
  else x.
Proof.
  rewrite gather_visit_eq. cbv zeta.
  destruct (spec_group (heap f) o) as [[ | | ]|]; unfold visit_result; cbn [heap];
    rewrite ?force_depth_at; destruct (decide _); reflexivity.
Qed.

Lemma material_in_group_snoc h l o g m :
  material_in_group h (l ++ [o]) g m ↔
  material_in_group h l g m ∨
  (spec_group h o = Some g ∧ m ∈ as_array (material (objs h o))).
Proof.
  unfold material_in_group, material_of. rewrite filter_app. split.
  - intros (o' & [Ho'|Ho']%elem_of_app & Hm); [left; eauto|right].
    apply list_elem_of_filter in Ho' as [Hg Ho']. apply list_elem_of_singleton in Ho' as ->.
    auto.
  - intros [(o' & Ho' & Hm)|[Hg Hm]].
    + exists o'. split; [apply elem_of_app; auto|exact Hm].
    + exists o. split; [|exact Hm]. apply elem_of_app. right.
      apply list_elem_of_filter. split; [exact Hg|]. now apply list_elem_of_singleton.
Qed.

(** The traversal, seen from a material: the last visit that writes to it
    decides, and every visit of an opaque or transparent-group object
    writes [depthTest = true]. *)
Lemma gather_fold_forces_depth h0 f0 m l :
  depth_only h0 (heap f0) →
  let f := fold_left (fun s o => gather_visit o s) l f0 in
  let on g := material_in_group h0 l g m in
  (on Opaque ∨ on SimpleTransparent → depthTest (mats (heap f) m) = JsBool true) ∧
  (on Opaque → ¬ on SimpleTransparent → depthWrite (mats (heap f) m) = JsBool true) ∧
  (on SimpleTransparent → ¬ on Opaque → depthWrite (mats (heap f) m) = JsBool false) ∧
  (¬ on Opaque → ¬ on SimpleTransparent → mats (heap f) m = mats (heap f0) m).
Proof.
  intros H0. cbv zeta. induction l as [|o l IH] using rev_ind.
  - assert (Hnone : ∀ g, ¬ material_in_group h0 [] g m).
    { intros g (o & Ho & _). rewrite filter_nil in Ho. now apply not_elem_of_nil in Ho. }
    cbn [fold_left]. split_and!.
    + intros [H|H]; now apply Hnone in H.
    + intros H; now apply Hnone in H.
    + intros H; now apply Hnone in H.
    + reflexivity.
  - rewrite fold_left_app. cbn [fold_left]. rewrite !material_in_group_snoc.
    destruct (gather_fold_groups h0 l f0 H0) as (Hd & _). cbv zeta in Hd.
    set (f := fold_left (fun s o => gather_visit o s) l f0) in *.
    rewrite gather_visit_mats. cbv zeta.
    rewrite (depth_only_spec_group h0 (heap f) o Hd).
    destruct Hd as [-> _].
    destruct IH as (IH1 & IH2 & IH3 & IH4).
    destruct (decide (m ∈ as_array (material (objs h0 o)))) as [Hm|Hm].
    + destruct (spec_group h0 o) as [[ | | ]|] eqn:Hg.
      * destruct (mats (heap f) m). cbn. split_and!; auto; intros; exfalso; tauto.
      * destruct (mats (heap f) m). cbn. split_and!; auto; intros; exfalso; tauto.
      * split_and!.
        -- intros [[?|[[=] _]]|[?|[[=] _]]]; auto.
        -- intros [?|[[=] _]] Hn. apply IH2; tauto.
        -- intros [?|[[=] _]] Hn. apply IH3; tauto.
        -- intros Hn1 Hn2. apply IH4; tauto.
      * split_and!.
        -- intros [[?|[[=] _]]|[?|[[=] _]]]; auto.
        -- intros [?|[[=] _]] Hn. apply IH2; tauto.
        -- intros [?|[[=] _]] Hn. apply IH3; tauto.
        -- intros Hn1 Hn2. apply IH4; tauto.
    + split_and!.
      * intros [[?|[_ ?]]|[?|[_ ?]]]; auto; contradiction.
      * intros [?|[_ ?]] Hn; [|contradiction]. apply IH2; tauto.
      * intros [?|[_ ?]] Hn; [|contradiction]. apply IH3; tauto.
      * intros Hn1 Hn2. apply IH4; tauto.
Qed.

(** X13. The depth state classification forces on the materials, which is
    the state the opaque and the transparent scene renders run with
    ([changeVisible] writes to no material).  After [gatherMeshes] on a
    fresh frame: a material differs from what it was in [depthTest] and
    [depthWrite] at most; one that belongs to a mesh of the opaque or of the
    transparent group has [depthTest = true]; one that belongs to opaque
    meshes and to no transparent-group mesh has [depthWrite = true], one
    that belongs to transparent-group meshes and to no opaque mesh has
    [depthWrite = false]; one that belongs to neither (so also every
    material of the WBOIT group alone) is exactly what it was. *)
Theorem gatherMeshes_forces_depth (scene_ : Object3DTree) (h : Heap) (c : Caches) (m : nat) :
  let f := gatherMeshes scene_ (mkFrame h c [] [] []) in
  forget_depth (mats (heap f) m) = forget_depth (mats h m) ∧
  (material_of h (opaqueMeshes f) m ∨ material_of h (transparentMeshes f) m →
     depthTest (mats (heap f) m) = JsBool true) ∧
  (material_of h (opaqueMeshes f) m → ¬ material_of h (transparentMeshes f) m →
     depthWrite (mats (heap f) m) = JsBool true) ∧
  (material_of h (transparentMeshes f) m → ¬ material_of h (opaqueMeshes f) m →
     depthWrite (mats (heap f) m) = JsBool false) ∧
  (¬ material_of h (opaqueMeshes f) m → ¬ material_of h (transparentMeshes f) m →
     mats (heap f) m = mats h m).
Proof.
  destruct (gatherMeshes_groups scene_ h c) as ([_ Hd] & Ho & Ht & _).
  cbv zeta. rewrite Ho, Ht. split; [apply Hd|].
  unfold gatherMeshes. rewrite traverse_preorder.
  apply (gather_fold_forces_depth h (mkFrame h c [] [] []) m (preorder scene_)).
  apply depth_only_refl.
Qed.

Lemma gatherMeshes_forces_depth_witness :
  depthWrite (mats mixed_mesh_heap 0) = JsBool false ∧
  depthWrite
    (mats (heap (gatherMeshes one_mesh_scene (mkFrame mixed_mesh_heap empty_caches [] [] []))) 0)
  = JsBool true.
Proof.
  split; [reflexivity|].
  destruct (gatherMeshes_forces_depth one_mesh_scene mixed_mesh_heap empty_caches 0)
    as (_ & _ & H & _).
  apply H.
  - exists 1. split; apply list_elem_of_In; vm_compute; auto.
  - intros (o & Ho & _). apply list_elem_of_In in Ho. vm_compute in Ho. exact Ho.
Defined.
